(** * file_organizer.py: classification, organisation and report heuristics

    A shallow embedding of [organize_files] and [generate_report] from
    [src/file_organizer.py].

    Conventions.
    - A Python [str] is a [string]; a character is a code point below 256
      (an [ascii]).  On that range [str.lower] and the matching done by
      [re.IGNORECASE] are given by [lower_char] below.
    - Library calls ([os.path.splitext], [re.search], [os.makedirs],
      [shutil.move], [time.strftime], [os.walk]) are modelled by their
      documented behaviour on POSIX paths.
    - The file system is the tree below the directory being organised: a
      finite map from relative paths (lists of names) to nodes.
    - What the environment decides (permissions, locks, the clock, the
      result of [stat], whether a line can be printed or the report
      written) enters as an oracle. *)

From Stdlib Require Import ZArith QArith Ascii String List Bool Lia.
From Stdlib Require Import Sorted Permutation.
From stdpp Require Import gmap strings list fin_maps pretty.

Local Open Scope Z_scope.

(* ===================================================================== *)
(** * Strings *)
(* ===================================================================== *)

Module Str.

(** One character of [str.lower()]: A-Z and the Latin-1 capitals
    (U+00C0..U+00DE, the multiplication sign U+00D7 apart) move up by 32. *)
Definition lower_char (c : ascii) : ascii :=
  let n := N_of_ascii c in
  if ((65 <=? n) && (n <=? 90)
      || (192 <=? n) && (n <=? 222) && negb (n =? 215))%N
  then ascii_of_N (n + 32) else c.

(** [s.lower()] *)
Fixpoint lower (s : string) : string :=
  match s with
  | EmptyString => EmptyString
  | String c s' => String (lower_char c) (lower s')
  end.

(** [s[n:]] for [0 <= n] *)
Fixpoint drop (n : nat) (s : string) : string :=
  match n, s with
  | O, _ => s
  | S n', String _ s' => drop n' s'
  | S _, EmptyString => EmptyString
  end.

(** [s[:n]] for [0 <= n] *)
Fixpoint take (n : nat) (s : string) : string :=
  match n, s with
  | S n', String c s' => String c (take n' s')
  | _, _ => EmptyString
  end.

(** [s.startswith(p)] *)
Fixpoint startswith (p s : string) : bool :=
  match p, s with
  | EmptyString, _ => true
  | String a p', String b s' => Ascii.eqb a b && startswith p' s'
  | String _ _, EmptyString => false
  end.

(** [needle in hay] on strings: the substring test. *)
Fixpoint contains (needle hay : string) : bool :=
  startswith needle hay
  || match hay with
     | EmptyString => false
     | String _ hay' => contains needle hay'
     end.

(** [s.rfind(c)] for a one-character [c]: the highest index, or -1.
    The scan keeps the index [i] of the next character and the last hit. *)
Fixpoint rfind_from (c : ascii) (s : string) (i found : Z) : Z :=
  match s with
  | EmptyString => found
  | String d s' => rfind_from c s' (i + 1) (if Ascii.eqb d c then i else found)
  end.

Definition rfind (c : ascii) (s : string) : Z := rfind_from c s 0 (-1).

(** [s.split(c)] for a one-character separator. *)
Fixpoint split (c : ascii) (s : string) : list string :=
  match s with
  | EmptyString => [EmptyString]
  | String d s' =>
      if Ascii.eqb d c then EmptyString :: split c s'
      else match split c s' with
           | [] => [String d EmptyString]
           | w :: ws => String d w :: ws
           end
  end.

Definition is_empty (s : string) : bool :=
  match s with EmptyString => true | String _ _ => false end.

End Str.

(* ===================================================================== *)
(** * os.path.splitext *)
(* ===================================================================== *)

(** The loop of [genericpath._splitext] that skips leading dots: is there
    a character other than [extsep] among the [n] characters of [p] from
    index [filenameIndex] on? *)
Fixpoint has_non_dot (p : string) (n : nat) : bool :=
  match n, p with
  | S n', String c p' => negb (Ascii.eqb c ".") || has_non_dot p' n'
  | _, _ => false
  end.

(** [os.path.splitext(p)] ([genericpath._splitext] with [sep = "/"], no
    [altsep], [extsep = "."]): split at the last dot, unless that dot
    comes before the last separator or only dots precede it in the last
    component. *)
Definition splitext (p : string) : string * string :=
  let sepIndex := Str.rfind "/" p in
  let dotIndex := Str.rfind "." p in
  if (sepIndex <? dotIndex)
     && has_non_dot (Str.drop (Z.to_nat (sepIndex + 1)) p)
                    (Z.to_nat (dotIndex - (sepIndex + 1)))
  then (Str.take (Z.to_nat dotIndex) p, Str.drop (Z.to_nat dotIndex) p)
  else (p, EmptyString).

(* ===================================================================== *)
(** * Regular expressions: the fragment used by [name_patterns] *)
(* ===================================================================== *)

Inductive regex : Type :=
| Eps                                   (* the empty pattern *)
| Lit (c : ascii)                       (* a literal character *)
| Cls (ranges : list (ascii * ascii))   (* [a-bc-d...]; [x] is the range x-x *)
| Digit                                 (* \d *)
| Cat (r1 r2 : regex)                   (* r1 r2 *)
| Alt (r1 r2 : regex)                   (* r1|r2 *)
| Opt (r : regex).                      (* r? *)

Module Re.

Definition in_range (c : ascii) (r : ascii * ascii) : bool :=
  ((N_of_ascii (fst r) <=? N_of_ascii c)
   && (N_of_ascii c <=? N_of_ascii (snd r)))%N.

Definition is_digit (c : ascii) : bool := in_range c ("0", "9")%char.

(** One character against one atom, under [re.IGNORECASE]: the subject
    character is lower-cased and compared with the lower-cased literal. *)
Definition lit_ok (p c : ascii) : bool :=
  Ascii.eqb (Str.lower_char c) (Str.lower_char p).

Definition cls_ok (ranges : list (ascii * ascii)) (c : ascii) : bool :=
  existsb (in_range (Str.lower_char c)) ranges.

(** The backtracking matcher: does [r] match a prefix of [s] such that
    the continuation [k] accepts the rest? *)
Fixpoint matches (r : regex) (s : string) (k : string -> bool) : bool :=
  match r with
  | Eps => k s
  | Lit p =>
      match s with
      | String c s' => lit_ok p c && k s'
      | EmptyString => false
      end
  | Cls ranges =>
      match s with
      | String c s' => cls_ok ranges c && k s'
      | EmptyString => false
      end
  | Digit =>
      match s with
      | String c s' => is_digit c && k s'
      | EmptyString => false
      end
  | Cat r1 r2 => matches r1 s (fun s' => matches r2 s' k)
  | Alt r1 r2 => matches r1 s k || matches r2 s k
  | Opt r1 => matches r1 s k || k s
  end.

(** [re.search(r, s, re.IGNORECASE)] as a truth value: a match starting at
    some position of [s], the end of the string included. *)
Fixpoint search (r : regex) (s : string) : bool :=
  matches r s (fun _ => true)
  || match s with
     | EmptyString => false
     | String _ s' => search r s'
     end.

(** Pattern builders. *)
Fixpoint str (s : string) : regex :=
  match s with
  | EmptyString => Eps
  | String c EmptyString => Lit c
  | String c s' => Cat (Lit c) (str s')
  end.

(** [w1|w2|...] *)
Fixpoint alts (ws : list string) : regex :=
  match ws with
  | [] => Eps
  | [w] => str w
  | w :: ws' => Alt (str w) (alts ws')
  end.

Definition one (c : ascii) : ascii * ascii := (c, c).

End Re.

(** The strings a pattern denotes, letters compared without case. *)
Inductive lang : regex -> string -> Prop :=
| lang_eps : lang Eps EmptyString
| lang_lit p c : Re.lit_ok p c = true -> lang (Lit p) (String c EmptyString)
| lang_cls ranges c :
    Re.cls_ok ranges c = true -> lang (Cls ranges) (String c EmptyString)
| lang_digit c : Re.is_digit c = true -> lang Digit (String c EmptyString)
| lang_cat r1 r2 s1 s2 :
    lang r1 s1 -> lang r2 s2 -> lang (Cat r1 r2) (s1 +:+ s2)
| lang_alt_l r1 r2 s : lang r1 s -> lang (Alt r1 r2) s
| lang_alt_r r1 r2 s : lang r2 s -> lang (Alt r1 r2) s
| lang_opt_some r s : lang r s -> lang (Opt r) s
| lang_opt_none r : lang (Opt r) EmptyString.

(** The pattern matches somewhere in the subject. *)
Definition found_in (r : regex) (s : string) : Prop :=
  exists pre mid post, s = pre +:+ mid +:+ post /\ lang r mid.

(** The needle occurs somewhere in the hay. *)
Definition occurs_in (needle hay : string) : Prop :=
  exists pre post, hay = pre +:+ needle +:+ post.

(* ===================================================================== *)
(** * The rule tables of [organize_files] *)
(* ===================================================================== *)

(** [extension_map]: a dict from the lower-case extension to the folder. *)
Definition extension_map : gmap string string :=
  list_to_map
    [ (".doc", "Documents/Word"); (".docx", "Documents/Word");
      (".pdf", "Documents/PDF"); (".txt", "Documents/Text");
      (".rtf", "Documents/Text"); (".xlsx", "Documents/Excel");
      (".xls", "Documents/Excel"); (".pptx", "Documents/PowerPoint");
      (".ppt", "Documents/PowerPoint");
      (".jpg", "Images/JPEG"); (".jpeg", "Images/JPEG");
      (".png", "Images/PNG"); (".gif", "Images/GIF");
      (".bmp", "Images/BMP"); (".svg", "Images/SVG");
      (".mp3", "Audio/MP3"); (".wav", "Audio/WAV");
      (".flac", "Audio/FLAC"); (".aac", "Audio/AAC");
      (".mp4", "Video/MP4"); (".avi", "Video/AVI");
      (".mkv", "Video/MKV"); (".mov", "Video/MOV");
      (".zip", "Archives/ZIP"); (".rar", "Archives/RAR");
      (".tar", "Archives/TAR"); (".gz", "Archives/GZ");
      (".py", "Programming/Python"); (".java", "Programming/Java");
      (".cpp", "Programming/C++"); (".c", "Programming/C");
      (".html", "WebDevelopment"); (".htm", "WebDevelopment");
      (".css", "WebDevelopment"); (".js", "WebDevelopment");
      (".php", "WebDevelopment"); (".jsx", "WebDevelopment");
      (".ts", "WebDevelopment"); (".tsx", "WebDevelopment") ].

(** (20\d{2})[-_]?(0[1-9]|1[0-2])[-_]?(0[1-9]|[12][0-9]|3[01]) *)
Definition date_pattern : regex :=
  let sep := Opt (Cls [Re.one "-"; Re.one "_"])%char in
  Cat (Cat (Re.str "20") (Cat Digit Digit))
  (Cat sep
  (Cat (Alt (Cat (Lit "0") (Cls [("1", "9")]))
            (Cat (Lit "1") (Cls [("0", "2")])))%char
  (Cat sep
       (Alt (Cat (Lit "0") (Cls [("1", "9")]))
       (Alt (Cat (Cls [Re.one "1"; Re.one "2"]) (Cls [("0", "9")]))
            (Cat (Lit "3") (Cls [Re.one "0"; Re.one "1"]))))%char))).

(** [name_patterns]: the dict literal, in the order its keys are written
    (the order in which [.items()] yields them). *)
Definition name_patterns : list (regex * string) :=
  [ (Re.alts ["backup"; "bak"], "BackupFiles");
    (Re.alts ["temp"; "tmp"], "TemporaryFiles");
    (Re.alts ["draft"; "wip"], "WorkInProgress");
    (Re.alts ["old"; "outdated"; "deprecated"], "OldFiles");
    (Re.alts ["screenshot"; "screen"; "scrn"], "Screenshots");
    (Re.alts ["report"; "review"], "Reports");
    (Re.alts ["invoice"; "receipt"; "bill"], "FinancialDocs");
    (Re.alts ["log"; "logs"], "LogFiles");
    (Re.alts ["presentation"; "slides"], "Presentations");
    (Re.alts ["project"; "prj"], "ProjectFiles");
    (Re.alts ["data"; "dataset"], "DataFiles");
    (Re.alts ["test"; "testing"], "TestFiles");
    (Re.alts ["sample"; "example"], "SampleFiles");
    (Re.alts ["config"; "cfg"; "settings"], "ConfigFiles");
    (Re.alts ["note"; "notes"], "Notes");
    (Re.alts ["download"; "dl"], "Downloads");
    (Re.alts ["scan"; "scanned"], "ScannedDocs");
    (date_pattern, "DateFormattedFiles");
    (Re.alts ["website"; "site"; "web"], "WebProjects") ].

(* ===================================================================== *)
(** * Classification (lines 139-157 of [organize_files]) *)
(* ===================================================================== *)

Section Classifier.

Variable patterns : list (regex * string).
Variable extensions : gmap string string.

(** The [for pattern, folder in name_patterns.items()] loop with its
    [break]: the folder of the first pattern that is found. *)
Fixpoint name_match (pats : list (regex * string)) (filename : string)
  : option string :=
  match pats with
  | [] => None
  | (pattern, folder) :: rest =>
      if Re.search pattern filename then Some folder
      else name_match rest filename
  end.

(** The fallback folder: [f"Other/{extension[1:] if extension else 'No_Extension'}"] *)
Definition other_folder (extension : string) : string :=
  "Other/" +:+ (if Str.is_empty extension then "No_Extension"
                else Str.drop 1 extension).

(** The value of [folder_name] for [filename]. *)
Definition classify_with (organize_by_name : bool) (filename : string)
  : string :=
  let extension := Str.lower (snd (splitext filename)) in
  let name_matched :=
    if organize_by_name then name_match patterns filename else None in
  match name_matched with
  | Some folder => folder
  | None =>
      match extensions !! extension with
      | Some folder => folder
      | None => other_folder extension
      end
  end.

End Classifier.

Definition classify : bool -> string -> string :=
  classify_with name_patterns extension_map.

(* ===================================================================== *)
(** * The file system below the organised directory *)
(* ===================================================================== *)

Inductive node : Type :=
| File (content : string)
| Dir.

(** A path is the list of its components below the directory; the empty
    path is the directory itself. *)
Abbreviation tree := (gmap (list string) node).

Definition stat_node (m : tree) (p : list string) : option node :=
  match p with
  | [] => Some Dir
  | _ => m !! p
  end.

(** [os.path.exists] *)
Definition path_exists (m : tree) (p : list string) : bool :=
  match stat_node m p with Some _ => true | None => false end.

(** [os.path.isdir] *)
Definition isdir (m : tree) (p : list string) : bool :=
  match stat_node m p with Some Dir => true | _ => false end.

Definition top_name (p : list string) : option string :=
  match p with
  | [n] => Some n
  | _ => None
  end.

(** [os.listdir(directory)]: the names of the immediate children, each
    once, in an order the file system chooses. *)
Definition listdir (m : tree) : list string :=
  omap top_name (map fst (map_to_list m)).

(** [os.path.join(directory, folder_name)], relative to the directory:
    the components of a slash-separated folder name. *)
Definition path_of (folder_name : string) : list string :=
  List.filter (fun s => negb (Str.is_empty s)) (Str.split "/" folder_name).

(** The folder name has at least one component. *)
Definition has_component (folder : string) : bool :=
  match path_of folder with [] => false | _ :: _ => true end.

(** [time.localtime()] as far as [strftime] reads it. *)
Record struct_time : Type := {
  tm_year : nat; tm_mon : nat; tm_mday : nat;
  tm_hour : nat; tm_min : nat; tm_sec : nat
}.

(** What the run cannot decide by itself. *)
Record env : Type := {
  mkdir_ok : list string -> bool;     (* may this directory be created? *)
  move_ok : string -> bool;           (* does [shutil.move] of this file return? *)
  move_leaves : string -> option string;
                                      (* the copy a raising [shutil.move] leaves *)
  print_moved_ok : string -> bool;    (* can the "Moved: ..." line be printed? *)
  print_error_ok : string -> bool;    (* can the "Error moving ..." line be printed? *)
  localtime : string -> struct_time   (* the clock when this file is handled *)
}.

Definition digit (n : nat) : ascii := ascii_of_nat (48 + n mod 10).

Definition pad2 (n : nat) : string :=
  String (digit (n / 10)) (String (digit n) EmptyString).

Definition pad4 (n : nat) : string :=
  String (digit (n / 1000)) (String (digit (n / 100)) (pad2 n)).

Definition date_digits (t : struct_time) : string :=
  pad4 (tm_year t) +:+ pad2 (tm_mon t) +:+ pad2 (tm_mday t).

Definition time_digits (t : struct_time) : string :=
  pad2 (tm_hour t) +:+ pad2 (tm_min t) +:+ pad2 (tm_sec t).

Fixpoint all_digits (s : string) : bool :=
  match s with
  | EmptyString => true
  | String c s' => Re.is_digit c && all_digits s'
  end.

(** [time.strftime("_%Y%m%d_%H%M%S")], for a local time whose year has
    four digits. *)
Definition strftime (t : struct_time) : string :=
  "_" +:+ date_digits t +:+ "_" +:+ time_digits t.

(** [os.makedirs(path, exist_ok=True)], one component after the other
    below [pre]: a directory that is there is kept, a missing one is
    created, and a regular file in the way (or a refused [mkdir]) raises.
    The result is the tree the call leaves and whether it returned
    normally ([false]: it raised). *)
Fixpoint makedirs (e : env) (pre comps : list string) (m : tree)
  : tree * bool :=
  match comps with
  | [] => (m, true)
  | c :: rest =>
      let p := pre ++ [c] in
      match m !! p with
      | Some Dir => makedirs e p rest m
      | Some (File _) => (m, false)
      | None =>
          if mkdir_ok e p then makedirs e p rest (<[p := Dir]> m)
          else (m, false)
      end
  end.

(** [shutil.move(src, dst)] for a top-level file [src = [filename]]: the
    flag tells whether the call returned, the tree is what it leaves.  A
    destination that is a directory receives the file under its own name,
    and the call raises before touching anything when that name is taken;
    otherwise the file is renamed onto [real_dst], replacing what is there.
    Where [os.rename] is refused the call falls back on a copy followed by
    [os.unlink]: when it raises on that way the source is still in place
    and a copy, whole or partial, may have been written at [real_dst]. *)
Definition move (e : env) (filename : string) (dst : list string) (m : tree)
  : bool * tree :=
  match m !! [filename] with
  | None => (false, m)
  | Some nd =>
      let real_dst := if isdir m dst then dst ++ [filename] else dst in
      if isdir m dst && path_exists m real_dst then (false, m)
      else if move_ok e filename
      then (true, <[real_dst := nd]> (delete [filename] m))
      else match move_leaves e filename with
           | Some content => (false, <[real_dst := File content]> m)
           | None => (false, m)
           end
  end.

(** What became of a file at [shutil.move] (the call returned, or raised),
    and the line that reports it. *)
Inductive event : Type :=
| Moved (filename folder_name : string) (target_path : list string)
| ErrorMoving (filename : string).

Definition event_name (ev : event) : string :=
  match ev with
  | Moved filename _ _ => filename
  | ErrorMoving filename => filename
  end.

Definition is_moved (ev : event) : bool :=
  match ev with Moved _ _ _ => true | ErrorMoving _ => false end.

(** The state of a run: [log] records the calls of [shutil.move] in order
    with their outcome, [printed] the lines of the inner [try] that did
    reach the output, [moved_files] is the counter of the source. *)
Record state : Type := {
  st_fs : tree;
  moved_files : nat;
  log : list event;
  printed : list event;
  aborted : bool      (* the outer handler ran: "Error while organizing files" *)
}.

Definition init (m : tree) : state :=
  {| st_fs := m; moved_files := 0; log := []; printed := []; aborted := false |}.

Section Organizer.

Variable e : env.
Variable organize_by_name : bool.

Definition target_folder (filename : string) : list string :=
  path_of (classify organize_by_name filename).

(** [new_filename = f"{name}{timestamp}{ext}"] *)
Definition new_filename (filename : string) : string :=
  let '(name, ext) := splitext filename in
  name +:+ strftime (localtime e filename) +:+ ext.

(** [target_path] as it is handed to [shutil.move], read in the tree
    [m] that [os.makedirs] has left. *)
Definition target_path (m : tree) (filename : string) : list string :=
  if path_exists m (target_folder filename ++ [filename])
  then target_folder filename ++ [new_filename filename]
  else target_folder filename ++ [filename].

(** The handler of the inner [try]: it prints the error line; when that
    [print] raises, the exception leaves the loop for the outer handler. *)
Definition handle_error (filename : string) (m : tree) (ev : event)
    (st : state) : state :=
  if print_error_ok e filename
  then {| st_fs := m; moved_files := moved_files st;
          log := log st ++ [ev];
          printed := printed st ++ [ErrorMoving filename];
          aborted := false |}
  else {| st_fs := m; moved_files := moved_files st;
          log := log st ++ [ev];
          printed := printed st;
          aborted := true |}.

(** The inner [try] for one file, in the tree [m1] that [os.makedirs] has
    left: [shutil.move], then the [print] of the "Moved" line, then the
    counter.  Either of the first two may raise, which runs the handler;
    the counter is reached only when both returned. *)
Definition move_file (filename : string) (m1 : tree) (st : state) : state :=
  let dst := target_path m1 filename in
  let moved := Moved filename (classify organize_by_name filename) dst in
  match move e filename dst m1 with
  | (true, m2) =>
      if print_moved_ok e filename
      then {| st_fs := m2; moved_files := S (moved_files st);
              log := log st ++ [moved];
              printed := printed st ++ [moved];
              aborted := false |}
      else handle_error filename m2 moved st
  | (false, m2) => handle_error filename m2 (ErrorMoving filename) st
  end.

(** The body of the [for] loop over the listing, with the two handlers:
    a raised [os.makedirs] leaves the loop, and so does a [print] that
    raises inside the inner handler; a raised [shutil.move] whose error
    line is printed lets the loop go on. *)
Fixpoint organize_loop (names : list string) (st : state) : state :=
  match names with
  | [] => st
  | filename :: rest =>
      if isdir (st_fs st) [filename] then organize_loop rest st
      else
        match makedirs e [] (target_folder filename) (st_fs st) with
        | (m1, false) =>
            {| st_fs := m1; moved_files := moved_files st;
               log := log st; printed := printed st; aborted := true |}
        | (m1, true) =>
            let st1 := move_file filename m1 st in
            if aborted st1 then st1 else organize_loop rest st1
        end
  end.

(** [organize_files(directory_path, organize_by_name)] on an existing
    directory: the listing is taken from the tree the call starts in.  The
    returned integer is [moved_files] of the final state.  The three
    [print] calls outside the inner [try] (the opening line, the line of
    the outer handler and the closing line) are taken to return. *)
Definition organize_files (m : tree) : state :=
  organize_loop (listdir m) (init m).

End Organizer.

Definition sample_tree : tree :=
  list_to_map
    [ (["photo.JPG"], File "jpg"); (["notes_backup.txt"], File "notes");
      (["script.py"], File "py"); (["unknown.xyz"], File "xyz");
      (["Archive"], Dir) ].

Definition sample_env : env :=
  {| mkdir_ok := fun _ => true; move_ok := fun _ => true;
     move_leaves := fun _ => None;
     print_moved_ok := fun _ => true; print_error_ok := fun _ => true;
     localtime := fun _ => {| tm_year := 2024; tm_mon := 3; tm_mday := 9;
                              tm_hour := 7; tm_min := 5; tm_sec := 0 |} |}.

(** A tree in which the destination of [notes.txt] is taken. *)
Definition collision_tree : tree :=
  list_to_map
    [ (["notes.txt"], File "new"); (["Documents"], Dir);
      (["Documents"; "Text"], Dir);
      (["Documents"; "Text"; "notes.txt"], File "old") ].

(** An environment in which [script.py] cannot be moved. *)
Definition locked_env : env :=
  {| mkdir_ok := fun _ => true;
     move_ok := fun filename => negb (String.eqb filename "script.py");
     move_leaves := fun _ => None;
     print_moved_ok := fun _ => true; print_error_ok := fun _ => true;
     localtime := localtime sample_env |}.

(** A name with a letter outside ASCII (code point 239). *)
Definition accented_name : string :=
  "na" +:+ String (Ascii.ascii_of_nat 239) "ve.txt".

Definition console_tree : tree :=
  list_to_map [ ([accented_name], File "n"); (["z.pdf"], File "z") ].

Definition is_ascii (s : string) : bool :=
  forallb (fun c => Nat.ltb (Ascii.nat_of_ascii c) 128) (list_ascii_of_string s).

(** A console whose encoding is ASCII: a line that carries a filename
    with another character cannot be printed. *)
Definition ascii_console_env : env :=
  {| mkdir_ok := fun _ => true; move_ok := fun _ => true;
     move_leaves := fun _ => None;
     print_moved_ok := is_ascii; print_error_ok := is_ascii;
     localtime := localtime sample_env |}.

(** The same console, and the file with that name cannot be moved. *)
Definition locked_console_env : env :=
  {| mkdir_ok := fun _ => true;
     move_ok := fun filename => negb (String.eqb filename accented_name);
     move_leaves := fun _ => None;
     print_moved_ok := is_ascii; print_error_ok := is_ascii;
     localtime := localtime sample_env |}.

(** A tree with a regular file named like a category folder. *)
Definition blocked_tree : tree :=
  list_to_map
    [ (["a.txt"], File "a"); (["Other"], File "o"); (["z.pdf"], File "z") ].

(** A tree in which the destination of [notes.txt] and the time-stamped
    name it would get are both taken. *)
Definition crowded_tree : tree :=
  list_to_map
    [ (["notes.txt"], File "new"); (["Documents"], Dir);
      (["Documents"; "Text"], Dir);
      (["Documents"; "Text"; "notes.txt"], File "old");
      (["Documents"; "Text"; "notes_20240309_070500.txt"], File "older") ].

(** The offset of the last occurrence of a character. *)
Fixpoint rlast (c : ascii) (s : string) : option nat :=
  match s with
  | EmptyString => None
  | String d s' =>
      match rlast c s' with
      | Some k => Some (S k)
      | None => if Ascii.eqb d c then Some O else None
      end
  end.

(* ===================================================================== *)
(** * The report walk of [generate_report] *)
(* ===================================================================== *)

Definition deletion_categories : list string :=
  ["TemporaryFiles"; "BackupFiles"; "OldFiles";
   "Duplicates"; "Downloads"; "Cache"].

(** [category.lower() in rel_path.lower() or category.lower() in file.lower()] *)
Definition category_hit (category rel_path file : string) : bool :=
  Str.contains (Str.lower category) (Str.lower rel_path)
  || Str.contains (Str.lower category) (Str.lower file).

(** The [for category in deletion_categories] loop with its [break]. *)
Fixpoint category_loop (cats : list string) (rel_path file : string) : bool :=
  match cats with
  | [] => false
  | category :: rest =>
      if category_hit category rel_path file then true
      else category_loop rest rel_path file
  end.

(** [a > b] on the numbers that stand for Python floats. *)
Definition Qgt_bool (a b : Q) : bool := negb (Qle_bool a b).

(** The value of [is_candidate] after lines 251-259. *)
Definition is_candidate (rel_path file : string) (age_days : Q) : bool :=
  let is_candidate := category_loop deletion_categories rel_path file in
  if Qgt_bool age_days 180 then true else is_candidate.

(** Times and ages are exact rationals; sizes are integers. *)
Definition detail : Type := string * Z * Q * Q.      (* file, size, modified, age_days *)
Definition candidate : Type := string * string * Z * Q. (* rel_path, file, size, age_days *)

Definition detail_size (d : detail) : Z := snd (fst (fst d)).
Definition candidate_size (c : candidate) : Z := snd (fst c).

(** What the walk reads from outside: [getstat root file] is the pair of
    [os.path.getsize] and [os.path.getmtime], [None] when either raises;
    [now root file] is [time.time()] when that file is handled.  [root] is
    the directory relative to the walked one, ["."] for the top.
    [open_ok report_filename] tells whether [open(report_path, "w")]
    returns; [writes_ok] tells whether every other call of the outer [try]
    that touches the outside returns: each [report.write], the formatting
    of the modification times, the closing of the file and the final
    [print]. *)
Record report_env : Type := {
  getstat : string -> string -> option (Z * Q);
  now : string -> string -> Q;
  open_ok : string -> bool;
  writes_ok : bool
}.

(** [l.sort(key=..., reverse=True)]: stable, largest key first. *)
Section Sort.
Context {A : Type} (key : A -> Z).

Fixpoint insert_desc (x : A) (l : list A) : list A :=
  match l with
  | [] => [x]
  | y :: l' => if key x <? key y then y :: insert_desc x l' else x :: l
  end.

Definition sort_desc (l : list A) : list A := foldr insert_desc [] l.
End Sort.

(** The state of the loop over the files of one directory. *)
Record dir_state : Type := {
  file_details : list detail;
  directory_size : Z;
  potential_deletions : list candidate
}.

(** One section of the report: header and sorted entries. *)
Record section : Type := {
  sec_rel_path : string;
  sec_count : nat;
  sec_entries : list detail;
  sec_size : Z
}.

Record walk_state : Type := {
  sections : list section;
  total_files : nat;
  total_size : Z;
  candidates : list candidate
}.

Inductive exception : Type := ZeroDivisionError.

Inductive result (A : Type) : Type :=
| Ok (a : A)
| Raise (exn : exception).
Arguments Ok {A} a.
Arguments Raise {A} exn.

Record report : Type := {
  r_walk : walk_state;
  r_savings : option (list candidate * Z * Q)
}.

Section Reporter.

Variable re : report_env.
Variable report_filename : string.

(** One turn of [for file in files], with its [try]/[except]. *)
Definition file_step (root rel_path : string) (ds : dir_state) (file : string)
  : dir_state :=
  match getstat re root file with
  | Some (size, modified) =>
      let age_days := ((now re root file - modified) / 86400)%Q in
      {| file_details := file_details ds ++ [(file, size, modified, age_days)];
         directory_size := directory_size ds + size;
         potential_deletions :=
           if is_candidate rel_path file age_days
           then potential_deletions ds ++ [(rel_path, file, size, age_days)]
           else potential_deletions ds |}
  | None =>
      {| file_details := file_details ds ++ [(file, 0, 0%Q, 0%Q)];
         directory_size := directory_size ds;
         potential_deletions := potential_deletions ds |}
  end.

Definition files_loop (root rel_path : string) (files : list string)
    (pd : list candidate) : dir_state :=
  fold_left (file_step root rel_path) files
    {| file_details := []; directory_size := 0; potential_deletions := pd |}.

Definition display_path (root : string) : string :=
  if String.eqb root "." then "Root Directory" else root.

(** [files = [f for f in files if f != report_filename]] *)
Definition listed (files : list string) : list string :=
  List.filter (fun f => negb (String.eqb f report_filename)) files.

(** One turn of [for root, dirs, files in os.walk(directory)]. *)
Definition dir_step (ws : walk_state) (entry : string * list string)
  : walk_state :=
  let root := fst entry in
  let files := listed (snd entry) in
  match files with
  | [] => ws
  | _ =>
      let rel_path := display_path root in
      let ds := files_loop root rel_path files (candidates ws) in
      {| sections := sections ws ++
           [{| sec_rel_path := rel_path; sec_count := length files;
               sec_entries := sort_desc detail_size (file_details ds);
               sec_size := directory_size ds |}];
         total_files := total_files ws + length files;
         total_size := total_size ws + directory_size ds;
         candidates := potential_deletions ds |}
  end.

Definition walk_loop (walk : list (string * list string)) : walk_state :=
  fold_left dir_step walk
    {| sections := []; total_files := 0; total_size := 0; candidates := [] |}.

(** [a / b] on Python ints. *)
Definition true_div (a b : Z) : result Q :=
  if b =? 0 then Raise ZeroDivisionError
  else Ok (inject_Z a / inject_Z b)%Q.

(** [sum(item[2] for item in potential_deletions)] *)
Definition potential_savings (pd : list candidate) : Z :=
  fold_left (fun acc c => acc + candidate_size c) pd 0.

(** The candidate part of the summary: the sorted list, the savings and
    their share of the total in percent; [None] when there is no
    candidate and the block is skipped. *)
Definition savings_block (ws : walk_state)
  : result (option (list candidate * Z * Q)) :=
  match candidates ws with
  | [] => Ok None
  | _ =>
      let sorted := sort_desc candidate_size (candidates ws) in
      let savings := potential_savings sorted in
      match true_div savings (total_size ws) with
      | Ok share => Ok (Some (sorted, savings, (share * 100)%Q))
      | Raise exn => Raise exn
      end
  end.

(** [generate_report] on an existing directory, given what [os.walk]
    yields: the written report, or [None] when the [except Exception]
    handler ran, be it for a report file that cannot be opened, for a
    write that raises or for the division. *)
Definition generate_report (walk : list (string * list string))
  : option report :=
  if open_ok re report_filename then
    let ws := walk_loop walk in
    match savings_block ws with
    | Ok blk =>
        if writes_ok re then Some {| r_walk := ws; r_savings := blk |}
        else None
    | Raise _ => None
    end
  else None.

End Reporter.

(** ** Reading the walk *)

(** A marker word occurs in the relative path or in the file name,
    letters compared without case. *)
Definition marker_in (rel_path file : string) : Prop :=
  exists category,
    In category deletion_categories
    /\ (occurs_in (Str.lower category) (Str.lower rel_path)
        \/ occurs_in (Str.lower category) (Str.lower file)).

(** No marker word occurs in the relative path. *)
Definition no_marker (rel_path : string) : Prop :=
  forall category,
    In category deletion_categories ->
    ~ occurs_in (Str.lower category) (Str.lower rel_path).

(** [age_days] of a file whose modification time was read. *)
Definition age_of (re : report_env) (root file : string) (modified : Q) : Q :=
  ((now re root file - modified) / 86400)%Q.

(** The tuple a file leaves in [file_details]. *)
Definition detail_entry (re : report_env) (root file : string) : detail :=
  match getstat re root file with
  | Some (size, modified) => (file, size, modified, age_of re root file modified)
  | None => (file, 0, 0%Q, 0%Q)
  end.

(** The tuple a file leaves in [potential_deletions], if any. *)
Definition candidate_entry (re : report_env) (root rel_path file : string)
  : option candidate :=
  match getstat re root file with
  | Some (size, modified) =>
      if is_candidate rel_path file (age_of re root file modified)
      then Some (rel_path, file, size, age_of re root file modified)
      else None
  | None => None
  end.

(** The walk without one file of one directory. *)
Definition drop_file (root file : string) (walk : list (string * list string))
  : list (string * list string) :=
  map (fun entry =>
         if String.eqb (fst entry) root
         then (fst entry,
               List.filter (fun f => negb (String.eqb f file)) (snd entry))
         else entry) walk.

(** Sample environments: every file has the given size and was modified
    [age] days before the report; or no file can be read. *)
Definition aged_env (size : Z) (age : Z) : report_env :=
  {| getstat := fun _ _ => Some (size, 0%Q);
     now := fun _ _ => inject_Z (age * 86400);
     open_ok := fun _ => true; writes_ok := true |}.

Definition unreadable_env : report_env :=
  {| getstat := fun _ _ => None; now := fun _ _ => 0%Q;
     open_ok := fun _ => true; writes_ok := true |}.

Definition default_report : string := "file_organization_report.txt".

(* ===================================================================== *)
(** * [format_size] *)
(* ===================================================================== *)

(** The tenths shown by [f"{a/b:.1f}"] for ints [0 <= a < 2^53] and a
    power of two [b]: the quotient is then an exact float, and the format
    rounds it to one decimal, a tie going to the even digit. *)
Definition tenths (a b : Z) : Z :=
  let q := (10 * a) / b in
  let r := (10 * a) mod b in
  if 2 * r <? b then q
  else if b <? 2 * r then q + 1
  else if Z.even q then q else q + 1.

Definition one_decimal (a b : Z) : string :=
  pretty (tenths a b / 10) +:+ "." +:+ pretty (tenths a b mod 10).

Definition KB : Z := 1024.
Definition MB : Z := 1024 * 1024.
Definition GB : Z := 1024 * 1024 * 1024.

(** [format_size(size_bytes)] *)
Definition format_size (size_bytes : Z) : string :=
  if size_bytes <? 1024 then pretty size_bytes +:+ " bytes"
  else if size_bytes <? 1024 * 1024
       then one_decimal size_bytes 1024 +:+ " KB"
  else if size_bytes <? 1024 * 1024 * 1024
       then one_decimal size_bytes (1024 * 1024) +:+ " MB"
  else one_decimal size_bytes (1024 * 1024 * 1024) +:+ " GB".

(** ** Reading the report *)

Definition Zsum (l : list Z) : Z := foldr Z.add 0 l.

(** Largest first. *)
Definition by_size_desc {A : Type} (key : A -> Z) (l : list A) : Prop :=
  StronglySorted (fun a b => key b <= key a) l.

Definition detail_name (d : detail) : string := fst (fst (fst d)).
Definition candidate_file (c : candidate) : string := snd (fst (fst c)).
Definition candidate_path (c : candidate) : string := fst (fst (fst c)).

(** [os.path.getsize] never returns a negative size. *)
Definition sizes_nonneg (re : report_env) : Prop :=
  forall root file size modified,
    getstat re root file = Some (size, modified) -> 0 <= size.

(** [full_path] of a candidate in the summary (line 299). *)
Definition full_path (c : candidate) : string :=
  if String.eqb (candidate_path c) "Root Directory" then candidate_file c
  else candidate_path c +:+ "/" +:+ candidate_file c.

(* ===================================================================== *)
(** * Sanity checks of the embedding *)
(* ===================================================================== *)

Example classify_photo : classify false "photo.JPG" = "Images/JPEG".
Proof. reflexivity. Qed.
Example classify_notes_ext : classify false "notes_backup.txt" = "Documents/Text".
Proof. reflexivity. Qed.
Example classify_notes_name : classify true "notes_backup.txt" = "BackupFiles".
Proof. reflexivity. Qed.
Example classify_script : classify true "script.py" = "Programming/Python".
Proof. reflexivity. Qed.
Example classify_unknown : classify true "unknown.xyz" = "Other/xyz".
Proof. reflexivity. Qed.
Example classify_noext : classify true "README" = "Other/No_Extension".
Proof. reflexivity. Qed.
Example classify_date : classify true "IMG_2023-07-15.png" = "DateFormattedFiles".
Proof. reflexivity. Qed.
Example classify_hidden : classify false ".bashrc" = "Other/No_Extension".
Proof. reflexivity. Qed.
Example strftime_sample :
  strftime (localtime sample_env "x") = "_20240309_070500".
Proof. reflexivity. Qed.
Example organize_sample_count :
  moved_files (organize_files sample_env false sample_tree) = 4%nat.
Proof. vm_compute. reflexivity. Qed.
Example organize_sample_lookup :
  st_fs (organize_files sample_env true sample_tree)
    !! ["BackupFiles"; "notes_backup.txt"] = Some (File "notes").
Proof. vm_compute. reflexivity. Qed.

(* ===================================================================== *)
(** * Strings: basic facts *)
(* ===================================================================== *)

#[local] Arguments String.append !s1 s2 : simpl nomatch.

Lemma app_nil_r_str (s : string) : s +:+ "" = s.
Proof. induction s as [|c s IH]; simpl; [reflexivity | now rewrite IH]. Qed.

Lemma app_assoc_str (a b c : string) : (a +:+ b) +:+ c = a +:+ b +:+ c.
Proof. induction a as [|x a IH]; simpl; [reflexivity | now rewrite IH]. Qed.

Lemma length_app_str (a b : string) :
  String.length (a +:+ b) = (String.length a + String.length b)%nat.
Proof. induction a as [|x a IH]; simpl; [reflexivity | now rewrite IH]. Qed.

Lemma take_drop_str (n : nat) (s : string) : Str.take n s +:+ Str.drop n s = s.
Proof.
  revert s; induction n as [|n IH]; intros [|c s]; simpl; try reflexivity.
  now rewrite IH.
Qed.

Lemma startswith_spec (p s : string) :
  Str.startswith p s = true <-> exists post, s = p +:+ post.
Proof.
  revert s; induction p as [|a p IH]; intros s; simpl.
  - split; [intros _; now exists s | reflexivity].
  - destruct s as [|b s].
    + split; [discriminate | intros [post H]; discriminate].
    + rewrite andb_true_iff, Ascii.eqb_eq, IH. split.
      * intros [-> [post ->]]. now exists post.
      * intros [post H]. injection H as -> ->. split; [reflexivity | now exists post].
Qed.

Lemma contains_spec (needle hay : string) :
  Str.contains needle hay = true <-> occurs_in needle hay.
Proof.
  unfold occurs_in. induction hay as [|c hay IH]; simpl.
  - rewrite orb_false_r, startswith_spec. split.
    + intros [post H]. now exists "", post.
    + intros [[|x pre] [post H]]; [now exists post | discriminate].
  - rewrite orb_true_iff, startswith_spec, IH. split.
    + intros [[post H] | (pre & post & H)].
      * now exists "", post.
      * exists (String c pre), post. simpl. now rewrite H.
    + intros [[|x pre] [post H]].
      * left. now exists post.
      * right. simpl in H. injection H as -> ->. now exists pre, post.
Qed.

(* ===================================================================== *)
(** * The matcher finds exactly the denoted strings *)
(* ===================================================================== *)

Lemma matches_spec (r : regex) : forall (s : string) (k : string -> bool),
  Re.matches r s k = true <->
  exists s1 s2, s = s1 +:+ s2 /\ lang r s1 /\ k s2 = true.
Proof.
  induction r as [|p|ranges| |r1 IH1 r2 IH2|r1 IH1 r2 IH2|r1 IH1]; intros s k; simpl.
  - split.
    + intros H. exists "", s. repeat split; [constructor | exact H].
    + intros (s1 & s2 & -> & Hl & Hk). inversion Hl; subst. exact Hk.
  - destruct s as [|c s].
    + split; [discriminate|]. intros (s1 & s2 & E & Hl & _).
      inversion Hl; subst; discriminate.
    + rewrite andb_true_iff. split.
      * intros [Hc Hk]. exists (String c ""), s. repeat split; [now constructor | exact Hk].
      * intros (s1 & s2 & E & Hl & Hk). inversion Hl; subst.
        simpl in E. injection E as -> ->. now split.
  - destruct s as [|c s].
    + split; [discriminate|]. intros (s1 & s2 & E & Hl & _).
      inversion Hl; subst; discriminate.
    + rewrite andb_true_iff. split.
      * intros [Hc Hk]. exists (String c ""), s. repeat split; [now constructor | exact Hk].
      * intros (s1 & s2 & E & Hl & Hk). inversion Hl; subst.
        simpl in E. injection E as -> ->. now split.
  - destruct s as [|c s].
    + split; [discriminate|]. intros (s1 & s2 & E & Hl & _).
      inversion Hl; subst; discriminate.
    + rewrite andb_true_iff. split.
      * intros [Hc Hk]. exists (String c ""), s. repeat split; [now constructor | exact Hk].
      * intros (s1 & s2 & E & Hl & Hk). inversion Hl; subst.
        simpl in E. injection E as -> ->. now split.
  - rewrite IH1. split.
    + intros (s1 & s2 & -> & Hl1 & Hk). apply IH2 in Hk.
      destruct Hk as (t1 & t2 & -> & Hl2 & Hk).
      exists (s1 +:+ t1), t2. rewrite app_assoc_str.
      repeat split; [now constructor | exact Hk].
    + intros (s1 & s2 & -> & Hl & Hk). inversion Hl; subst.
      eexists _, _. rewrite app_assoc_str. repeat split; [eassumption|].
      apply IH2. eexists _, _. repeat split; eassumption.
  - rewrite orb_true_iff, IH1, IH2. split.
    + intros [(s1 & s2 & -> & Hl & Hk) | (s1 & s2 & -> & Hl & Hk)];
        exists s1, s2; repeat split; try exact Hk.
      * now apply lang_alt_l.
      * now apply lang_alt_r.
    + intros (s1 & s2 & -> & Hl & Hk). inversion Hl; subst;
        [left | right]; exists s1, s2; now repeat split.
  - rewrite orb_true_iff, IH1. split.
    + intros [(s1 & s2 & -> & Hl & Hk) | Hk].
      * exists s1, s2; repeat split; [now apply lang_opt_some | exact Hk].
      * exists "", s. repeat split; [apply lang_opt_none | exact Hk].
    + intros (s1 & s2 & -> & Hl & Hk). inversion Hl; subst.
      * left. exists s1, s2. now repeat split.
      * right. exact Hk.
Qed.

Lemma search_spec (r : regex) (s : string) :
  Re.search r s = true <-> found_in r s.
Proof.
  unfold found_in. induction s as [|c s IH]; simpl.
  - rewrite orb_false_r, matches_spec. split.
    + intros (s1 & s2 & E & Hl & _). exists "", s1, s2. now split.
    + intros ([|x pre] & mid & post & E & Hl); [|discriminate].
      exists mid, post. now repeat split.
  - rewrite orb_true_iff, matches_spec, IH. split.
    + intros [(s1 & s2 & E & Hl & _) | (pre & mid & post & E & Hl)].
      * exists "", s1, s2. now split.
      * exists (String c pre), mid, post. simpl. rewrite E. now split.
    + intros ([|x pre] & mid & post & E & Hl).
      * left. exists mid, post. now repeat split.
      * right. simpl in E. injection E as -> ->. now exists pre, mid, post.
Qed.

Lemma search_false (r : regex) (s : string) :
  Re.search r s = false <-> ~ found_in r s.
Proof.
  rewrite <- search_spec. destruct (Re.search r s); split; intros H;
    try reflexivity; try discriminate; try (intros E; discriminate).
  exfalso; now apply H.
Qed.

(* ===================================================================== *)
(** * os.path.splitext: shape of the result *)
(* ===================================================================== *)

Lemma rfind_from_spec (c : ascii) (s : string) : forall i found,
  let r := Str.rfind_from c s i found in
  r = found \/
  (i <= r /\ exists rest, Str.drop (Z.to_nat (r - i)) s = String c rest).
Proof.
  induction s as [|d s IH]; intros i found; simpl.
  - now left.
  - specialize (IH (i + 1) (if Ascii.eqb d c then i else found)).
    simpl in IH. destruct IH as [E | (Hle & rest & E)].
    + rewrite E. destruct (Ascii.eqb_spec d c) as [->|_].
      * right. split; [lia|]. exists s. now rewrite Z.sub_diag.
      * now left.
    + right. split; [lia|]. exists rest.
      replace (Z.to_nat (Str.rfind_from c s (i + 1)
                 (if Ascii.eqb d c then i else found) - i))
        with (S (Z.to_nat (Str.rfind_from c s (i + 1)
                 (if Ascii.eqb d c then i else found) - (i + 1)))) by lia.
      exact E.
Qed.

Lemma splitext_app (p : string) : fst (splitext p) +:+ snd (splitext p) = p.
Proof.
  unfold splitext. destruct (_ && _); simpl.
  - apply take_drop_str.
  - apply app_nil_r_str.
Qed.

Lemma splitext_ext (p : string) :
  snd (splitext p) = "" \/ exists rest, snd (splitext p) = String "." rest.
Proof.
  unfold splitext. destruct (_ && _) eqn:E; simpl; [|now left].
  right. apply andb_true_iff in E as [Hlt _]. apply Z.ltb_lt in Hlt.
  pose proof (rfind_from_spec "." p 0 (-1)) as H. simpl in H.
  fold (Str.rfind "." p) in H.
  assert (-1 <= Str.rfind "/" p) as Hsep.
  { pose proof (rfind_from_spec "/" p 0 (-1)) as H'. simpl in H'.
    fold (Str.rfind "/" p) in H'. destruct H' as [-> | [? _]]; lia. }
  destruct H as [E | (_ & rest & E)]; [lia|].
  rewrite Z.sub_0_r in E. now exists rest.
Qed.

(* ===================================================================== *)
(** * Classification *)
(* ===================================================================== *)

Lemma name_match_first (before after : list (regex * string))
    (pattern : regex) (folder filename : string) :
  (forall p f, In (p, f) before -> Re.search p filename = false) ->
  Re.search pattern filename = true ->
  name_match (before ++ (pattern, folder) :: after) filename = Some folder.
Proof.
  intros Hbefore Hhit. induction before as [|[p f] before IH]; simpl.
  - now rewrite Hhit.
  - rewrite (Hbefore p f) by now left.
    apply IH. intros q g Hin. apply (Hbefore q g). now right.
Qed.

Lemma name_match_none (pats : list (regex * string)) (filename : string) :
  (forall p f, In (p, f) pats -> Re.search p filename = false) ->
  name_match pats filename = None.
Proof.
  induction pats as [|[p f] pats IH]; intros H; simpl; [reflexivity|].
  rewrite (H p f) by now left.
  apply IH. intros q g Hin. apply (H q g). now right.
Qed.

(** C1. With name matching enabled the pattern table is read in its
    declared order: when [pattern] is the first entry found anywhere in the
    filename (letters compared without case), its folder is the result,
    whatever entries follow it and whatever the extension table holds; no
    entry found in the filename stands before it. *)
Theorem classify_first_pattern_wins
    (filename : string) (before after : list (regex * string))
    (pattern : regex) (folder : string) :
  name_patterns = before ++ (pattern, folder) :: after ->
  (forall p f, In (p, f) before -> ~ found_in p filename) ->
  found_in pattern filename ->
  classify true filename = folder
  /\ (forall later exts,
        classify_with (before ++ (pattern, folder) :: later) exts true filename
        = folder)
  /\ (forall (j : nat) q g,
        name_patterns !! j = Some (q, g) -> found_in q filename ->
        (length before <= j)%nat).
Proof.
  intros Htable Hbefore Hhit.
  assert (forall p f, In (p, f) before -> Re.search p filename = false) as Hb.
  { intros p f Hin. apply search_false. now apply (Hbefore p f). }
  apply search_spec in Hhit.
  assert (forall later exts,
    classify_with (before ++ (pattern, folder) :: later) exts true filename
    = folder) as Hgen.
  { intros later exts. unfold classify_with.
    now rewrite (name_match_first before later pattern folder filename Hb Hhit). }
  split; [|split].
  - unfold classify. rewrite Htable. apply Hgen.
  - exact Hgen.
  - intros j q g Hj Hq. destruct (Nat.le_gt_cases (length before) j) as [|Hlt];
      [assumption|exfalso].
    rewrite Htable, lookup_app_l in Hj by exact Hlt.
    apply (Hbefore q g); [|exact Hq].
    apply list_elem_of_In. now apply list_elem_of_lookup_2 in Hj.
Qed.

(** C8. When no name pattern is found in the filename, or name matching
    is off, the lower-cased extension decides: a key of the extension
    table gives that key's folder; otherwise the folder is
    [Other/No_Extension] for an empty extension and [Other/] followed by
    the extension without its dot for any other. *)
Theorem classify_by_extension (organize_by_name : bool) (filename : string) :
  (organize_by_name = false
   \/ forall p f, In (p, f) name_patterns -> ~ found_in p filename) ->
  let extension := Str.lower (snd (splitext filename)) in
  match extension_map !! extension with
  | Some folder => classify organize_by_name filename = folder
  | None =>
      match extension with
      | EmptyString => classify organize_by_name filename = "Other/No_Extension"
      | String dot rest =>
          dot = "."%char /\ classify organize_by_name filename = "Other/" +:+ rest
      end
  end.
Proof.
  intros Hno extension.
  assert ((if organize_by_name then name_match name_patterns filename else None)
          = None) as Hnm.
  { destruct Hno as [-> | Hno]; [reflexivity|].
    destruct organize_by_name; [|reflexivity].
    apply name_match_none. intros p f Hin. apply search_false. now apply (Hno p f). }
  unfold classify, classify_with. rewrite Hnm. fold extension.
  destruct (extension_map !! extension) as [folder|] eqn:E; [reflexivity|].
  subst extension.
  destruct (splitext_ext filename) as [-> | [rest ->]]; simpl; [reflexivity|].
  split; reflexivity.
Qed.

Lemma classify_first_pattern_wins_witness :
  found_in (Re.alts ["old"; "outdated"; "deprecated"]) "old_report.txt"
  /\ found_in (Re.alts ["report"; "review"]) "old_report.txt"
  /\ classify true "old_report.txt" = "OldFiles".
Proof.
  assert (found_in (Re.alts ["old"; "outdated"; "deprecated"]) "old_report.txt")
    as Hold by (apply search_spec; vm_compute; reflexivity).
  split; [exact Hold|].
  split; [apply search_spec; vm_compute; reflexivity|].
  refine (proj1 (classify_first_pattern_wins "old_report.txt"
            (firstn 3 name_patterns) (skipn 4 name_patterns)
            (Re.alts ["old"; "outdated"; "deprecated"]) "OldFiles" _ _ Hold)).
  - reflexivity.
  - intros p f Hin. apply search_false. simpl in Hin.
    destruct Hin as [E|[E|[E|[]]]]; inversion E; subst; vm_compute; reflexivity.
Defined.

Lemma classify_by_extension_witness :
  classify true "unknown.XYZ" = "Other/xyz"
  /\ classify false "notes_backup.TXT" = "Documents/Text".
Proof.
  split.
  - refine (proj2 (classify_by_extension true "unknown.XYZ" _)).
    right. intros p f Hin. apply search_false.
    unfold name_patterns in Hin. simpl in Hin.
    repeat (destruct Hin as [E|Hin];
            [inversion E; subst; vm_compute; reflexivity|]).
    destruct Hin.
  - refine (classify_by_extension false "notes_backup.TXT" _).
    now left.
Defined.

(* ===================================================================== *)
(** * The organiser: library calls *)
(* ===================================================================== *)

Lemma name_match_in (pats : list (regex * string)) (filename folder : string) :
  name_match pats filename = Some folder -> In folder (map snd pats).
Proof.
  induction pats as [|[p f] pats IH]; simpl; [discriminate|].
  destruct (Re.search p filename).
  - intros [= ->]. now left.
  - intros H. right. now apply IH.
Qed.

Lemma other_folder_component (extension : string) :
  has_component (other_folder extension) = true.
Proof. reflexivity. Qed.

Lemma classify_component (organize_by_name : bool) (filename : string) :
  has_component (classify organize_by_name filename) = true.
Proof.
  unfold classify, classify_with.
  destruct (if organize_by_name then name_match name_patterns filename else None)
    as [folder|] eqn:E.
  - destruct organize_by_name; [|discriminate].
    apply name_match_in in E.
    assert (forallb has_component (map snd name_patterns) = true) as Hall
      by (vm_compute; reflexivity).
    rewrite forallb_forall in Hall. now apply Hall.
  - destruct (extension_map !! _) as [folder|] eqn:L.
    + unfold extension_map in L. apply elem_of_list_to_map_2 in L.
      apply list_elem_of_In in L.
      match type of L with In _ ?l =>
        assert (forallb (fun kv => has_component (snd kv)) l = true) as Hall
          by (vm_compute; reflexivity)
      end.
      rewrite forallb_forall in Hall. now apply (Hall _ L).
    + apply other_folder_component.
Qed.

Lemma target_folder_nonempty (organize_by_name : bool) (filename : string) :
  target_folder organize_by_name filename <> [].
Proof.
  unfold target_folder. pose proof (classify_component organize_by_name filename) as H.
  unfold has_component in H. destruct (path_of _); [discriminate | discriminate].
Qed.

Lemma makedirs_lookup (e : env) (comps : list string) :
  forall (pre : list string) (m m1 : tree) (ok : bool),
  makedirs e pre comps m = (m1, ok) ->
  forall p : list string,
    m1 !! p = m !! p
    \/ (m !! p = None /\ m1 !! p = Some Dir
        /\ exists k, (0 < k <= length comps)%nat /\ p = pre ++ take k comps).
Proof.
  induction comps as [|c rest IH]; intros pre m m1 ok H p; simpl in H.
  - injection H as <- _. now left.
  - destruct (m !! (pre ++ [c])) as [[content|]|] eqn:E;
      [injection H as <- _; now left| |].
    + destruct (IH _ _ _ _ H p) as [Heq | (Hn & Hd & k & Hk & ->)]; [now left|].
      right. repeat split; try assumption.
      exists (S k). split; [simpl; lia|]. now rewrite <- app_assoc.
    + destruct (mkdir_ok e (pre ++ [c])); [|injection H as <- _; now left].
      destruct (decide (p = pre ++ [c])) as [->|Hne].
      * right. split; [exact E|]. split.
        -- destruct (IH _ _ _ _ H (pre ++ [c])) as [Heq | (Hn & _)].
           ++ now rewrite Heq, lookup_insert_eq.
           ++ now rewrite lookup_insert_eq in Hn.
        -- exists 1%nat. split; [simpl; lia|]. simpl. now rewrite take_0.
      * destruct (IH _ _ _ _ H p) as [Heq | (Hn & Hd & k & Hk & ->)].
        -- left. now rewrite Heq, lookup_insert_ne.
        -- right. rewrite lookup_insert_ne in Hn by congruence.
           repeat split; try assumption.
           exists (S k). split; [simpl; lia|]. now rewrite <- app_assoc.
Qed.

(** [os.makedirs] neither removes nor rewrites an entry. *)
Lemma makedirs_keeps (e : env) (comps pre : list string) (m m1 : tree)
    (ok : bool) (p : list string) (nd : node) :
  makedirs e pre comps m = (m1, ok) -> m !! p = Some nd -> m1 !! p = Some nd.
Proof.
  intros H Hp. destruct (makedirs_lookup e comps pre m m1 ok H p) as [-> | (Hn & _)];
    [exact Hp | congruence].
Qed.

(** A regular file seen after [os.makedirs] was there before. *)
Lemma makedirs_file (e : env) (comps pre : list string) (m m1 : tree)
    (ok : bool) (p : list string) (content : string) :
  makedirs e pre comps m = (m1, ok) ->
  m1 !! p = Some (File content) -> m !! p = Some (File content).
Proof.
  intros H Hp. destruct (makedirs_lookup e comps pre m m1 ok H p) as [<- | (_ & Hd & _)];
    [exact Hp | congruence].
Qed.

(** Paths longer than the created folder are not touched. *)
Lemma makedirs_below (e : env) (comps : list string) (m m1 : tree)
    (ok : bool) (name : string) :
  makedirs e [] comps m = (m1, ok) ->
  m1 !! (comps ++ [name]) = m !! (comps ++ [name]).
Proof.
  intros H. destruct (makedirs_lookup e comps [] m m1 ok H (comps ++ [name]))
    as [-> | (_ & _ & k & Hk & E)]; [reflexivity|].
  exfalso. simpl in E. apply (f_equal length) in E.
  rewrite length_app, length_take in E. simpl in E. lia.
Qed.

(** What a call of [shutil.move] can leave: nothing changed and an
    exception; or the file renamed onto [real_dst]; or an exception with a
    copy written at [real_dst] and the source still in place. *)
Lemma move_inv (e : env) (filename : string) (dst : list string) (m m2 : tree)
    (returned : bool) :
  move e filename dst m = (returned, m2) ->
  (returned = false /\ m2 = m)
  \/ exists real_dst,
       ((real_dst = dst /\ isdir m dst = false)
        \/ (real_dst = dst ++ [filename] /\ path_exists m real_dst = false))
       /\ ((returned = true /\ move_ok e filename = true
            /\ exists nd, m !! [filename] = Some nd
                          /\ m2 = <[real_dst := nd]> (delete [filename] m))
           \/ (returned = false
               /\ exists content, m2 = <[real_dst := File content]> m)).
Proof.
  unfold move. destruct (m !! [filename]) as [nd|]; [|intros [= <- <-]; now left].
  destruct (isdir m dst) eqn:Hd; simpl.
  - destruct (path_exists m (dst ++ [filename])) eqn:Hex;
      [intros [= <- <-]; now left|].
    destruct (move_ok e filename) eqn:Hok.
    + intros [= <- <-]. right. exists (dst ++ [filename]).
      split; [now right|]. left. eauto.
    + destruct (move_leaves e filename) as [content|]; intros [= <- <-];
        [|now left].
      right. exists (dst ++ [filename]). split; [now right|]. right. eauto.
  - destruct (move_ok e filename) eqn:Hok.
    + intros [= <- <-]. right. exists dst. split; [now left|]. left. eauto.
    + destruct (move_leaves e filename) as [content|]; intros [= <- <-];
        [|now left].
      right. exists dst. split; [now left|]. right. eauto.
Qed.

Lemma path_exists_false (m : tree) (p : list string) :
  path_exists m p = false -> m !! p = None.
Proof.
  unfold path_exists, stat_node. destruct p as [|c p]; [discriminate|].
  now destruct (m !! (c :: p)).
Qed.

(** The same, entry by entry, for a destination at least one folder below
    the directory: an entry is as it was, or it is the source and is gone,
    or it is the place the file, or its copy, was written to. *)
Lemma move_lookup (e : env) (filename : string) (dst : list string)
    (m m2 : tree) (returned : bool) :
  (2 <= length dst)%nat ->
  move e filename dst m = (returned, m2) ->
  forall p : list string,
    (m2 !! p = m !! p /\ (returned = true -> p <> [filename]))
    \/ (p = [filename] /\ returned = true /\ m2 !! p = None)
    \/ (((p = dst /\ isdir m dst = false)
         \/ (p = dst ++ [filename] /\ m !! p = None))
        /\ ((returned = true /\ m2 !! p = m !! [filename])
            \/ (returned = false /\ exists content, m2 !! p = Some (File content)))).
Proof.
  intros Hlen Hmv p.
  apply move_inv in Hmv as [[-> ->] | (real_dst & Hreal & Hres)];
    [left; split; [reflexivity | discriminate]|].
  assert (real_dst <> [filename]) as Hne.
  { intros ->. destruct Hreal as [[E _] | [E _]].
    - rewrite <- E in Hlen. simpl in Hlen. lia.
    - apply (f_equal length) in E. rewrite length_app in E. simpl in E. lia. }
  assert ((real_dst = dst /\ isdir m dst = false)
          \/ (real_dst = dst ++ [filename] /\ m !! real_dst = None)) as Hreal'.
  { destruct Hreal as [H | [E H]]; [now left | right].
    split; [exact E | now apply path_exists_false]. }
  destruct (decide (p = real_dst)) as [->|Hp].
  - right. right. split; [exact Hreal'|].
    destruct Hres as [(-> & _ & nd & Hsrc & ->) | (-> & content & ->)].
    + left. split; [reflexivity|]. now rewrite lookup_insert_eq.
    + right. split; [reflexivity|]. exists content. apply lookup_insert_eq.
  - destruct Hres as [(-> & _ & nd & Hsrc & ->) | (-> & content & ->)].
    + rewrite lookup_insert_ne by congruence.
      destruct (decide (p = [filename])) as [->|Hpf].
      * right. left. split; [reflexivity|]. split; [reflexivity|].
        apply lookup_delete_eq.
      * left. split; [|intros _; exact Hpf].
        apply lookup_delete_ne. congruence.
    + left. split; [|discriminate]. apply lookup_insert_ne. congruence.
Qed.

(* ===================================================================== *)
(** * The organiser: the loop *)
(* ===================================================================== *)

Lemma target_path_length (e : env) (organize_by_name : bool) (m : tree)
    (filename : string) :
  (2 <= length (target_path e organize_by_name m filename))%nat.
Proof.
  unfold target_path.
  pose proof (target_folder_nonempty organize_by_name filename) as Hne.
  destruct (target_folder organize_by_name filename) as [|c tf]; [congruence|].
  destruct (path_exists _ _); simpl; rewrite length_app; simpl; lia.
Qed.

(** The inner [try] for one file: the outcome of the move goes to the
    log; the counter grows only when the move returned and its line was
    printed; the run goes on unless the handler's own [print] raised. *)
Lemma move_file_inv (e : env) (organize_by_name : bool) (filename : string)
    (m1 : tree) (st : state) :
  let st1 := move_file e organize_by_name filename m1 st in
  let dst := target_path e organize_by_name m1 filename in
  let moved := Moved filename (classify organize_by_name filename) dst in
  exists returned : bool,
    move e filename dst m1 = (returned, st_fs st1)
    /\ log st1 = log st ++ [if returned then moved else ErrorMoving filename]
    /\ ((returned = true /\ print_moved_ok e filename = true
         /\ moved_files st1 = S (moved_files st)
         /\ printed st1 = printed st ++ [moved]
         /\ aborted st1 = false)
        \/ ((returned = true -> print_moved_ok e filename = false)
            /\ moved_files st1 = moved_files st
            /\ printed st1
               = printed st ++ (if print_error_ok e filename
                                then [ErrorMoving filename] else [])
            /\ aborted st1 = negb (print_error_ok e filename))).
Proof.
  intros st1 dst moved. subst st1. unfold move_file, handle_error.
  fold dst. fold moved.
  destruct (move e filename dst m1) as [[|] m2].
  - exists true. destruct (print_moved_ok e filename) eqn:Hp.
    + simpl. split; [reflexivity|]. split; [reflexivity|]. left. easy.
    + destruct (print_error_ok e filename); simpl;
        (split; [reflexivity|]); (split; [reflexivity|]); right;
        rewrite ?app_nil_r; easy.
  - exists false.
    destruct (print_error_ok e filename); simpl;
      (split; [reflexivity|]); (split; [reflexivity|]); right;
      rewrite ?app_nil_r; easy.
Qed.

Lemma organize_loop_dirs (e : env) (organize_by_name : bool)
    (names : list string) (st : state) :
  (forall n, In n names -> isdir (st_fs st) [n] = true) ->
  organize_loop e organize_by_name names st = st.
Proof.
  induction names as [|n names IH]; intros H; simpl; [reflexivity|].
  rewrite (H n) by now left. apply IH. intros k Hk. apply H. now right.
Qed.

(** The loop, case by case: to show that [P names st r] holds of every
    run [r] over [names] from [st] it is enough to follow the five ways
    through the body. *)
Lemma organize_loop_cases (e : env) (organize_by_name : bool)
    (P : list string -> state -> state -> Prop) :
  (forall st, P [] st st) ->
  (forall filename rest st r,
     isdir (st_fs st) [filename] = true ->
     P rest st r -> P (filename :: rest) st r) ->
  (forall filename rest st m1,
     isdir (st_fs st) [filename] = false ->
     makedirs e [] (target_folder organize_by_name filename) (st_fs st)
     = (m1, false) ->
     P (filename :: rest) st
       {| st_fs := m1; moved_files := moved_files st; log := log st;
          printed := printed st; aborted := true |}) ->
  (forall filename rest st m1,
     isdir (st_fs st) [filename] = false ->
     makedirs e [] (target_folder organize_by_name filename) (st_fs st)
     = (m1, true) ->
     aborted (move_file e organize_by_name filename m1 st) = true ->
     P (filename :: rest) st (move_file e organize_by_name filename m1 st)) ->
  (forall filename rest st m1 r,
     isdir (st_fs st) [filename] = false ->
     makedirs e [] (target_folder organize_by_name filename) (st_fs st)
     = (m1, true) ->
     aborted (move_file e organize_by_name filename m1 st) = false ->
     P rest (move_file e organize_by_name filename m1 st) r ->
     P (filename :: rest) st r) ->
  forall names st, P names st (organize_loop e organize_by_name names st).
Proof.
  intros Hnil Hskip Hmk Hstop Hgo.
  induction names as [|filename rest IH]; intros st; simpl; [apply Hnil|].
  destruct (isdir (st_fs st) [filename]) eqn:Hd; [now apply Hskip|].
  destruct (makedirs e [] _ (st_fs st)) as [m1 [|]] eqn:E; [|now apply Hmk].
  destruct (aborted (move_file e organize_by_name filename m1 st)) eqn:Ha.
  - now apply Hstop.
  - now apply (Hgo filename rest st m1).
Qed.

Lemma filter_moved_length (evs : list event) :
  (length (List.filter is_moved evs) <= length evs)%nat.
Proof.
  induction evs as [|ev l IH]; simpl; [lia|].
  destruct (is_moved ev); simpl; lia.
Qed.

(** One file handled: what the step adds to the state. *)
Lemma move_file_step (e : env) (organize_by_name : bool) (filename : string)
    (m1 : tree) (st : state) :
  isdir (st_fs st) [filename] = false ->
  makedirs e [] (target_folder organize_by_name filename) (st_fs st)
  = (m1, true) ->
  let st1 := move_file e organize_by_name filename m1 st in
  exists ev : event,
    log st1 = log st ++ [ev]
    /\ event_name ev = filename
    /\ (moved_files st <= moved_files st1
        <= moved_files st + length (List.filter is_moved [ev]))%nat
    /\ (forall f folder tp, ev = Moved f folder tp -> (2 <= length tp)%nat)
    /\ (forall n content,
          st_fs st1 !! [n] = Some (File content) ->
          st_fs st !! [n] = Some (File content)
          /\ forall folder tp, ev <> Moved n folder tp).
Proof.
  intros Hd Hmk st1.
  destruct (move_file_inv e organize_by_name filename m1 st)
    as (returned & Hmv & Hlog & Hcnt).
  fold st1 in Hmv, Hlog, Hcnt.
  pose proof (target_path_length e organize_by_name m1 filename) as Hlen.
  eexists. split; [exact Hlog|].
  split; [now destruct returned|].
  split.
  { destruct Hcnt as [(-> & _ & -> & _) | (_ & -> & _)]; simpl; [lia|].
    destruct returned; simpl; lia. }
  split.
  { intros f folder tp E. destruct returned; [|discriminate].
    injection E as <- <- <-. exact Hlen. }
  intros n content Hn.
  destruct (move_lookup e filename _ m1 (st_fs st1) returned Hlen Hmv [n])
    as [[E Hne] | [(_ & _ & E) | ([[E _] | [E _]] & _)]].
  - rewrite E in Hn. split; [now apply (makedirs_file _ _ _ _ _ _ _ _ Hmk)|].
    intros folder tp Hev. destruct returned; [|discriminate].
    injection Hev as -> _ _. now apply Hne.
  - congruence.
  - rewrite <- E in Hlen. simpl in Hlen. lia.
  - apply (f_equal length) in E. rewrite length_app in E. simpl in E. lia.
Qed.

(** What a run of the loop adds to the state. *)
Lemma organize_loop_inv (e : env) (organize_by_name : bool)
    (names : list string) : forall st : state,
  let r := organize_loop e organize_by_name names st in
  exists evs : list event,
    log r = log st ++ evs
    /\ sublist (map event_name evs) names
    /\ (moved_files st <= moved_files r
        <= moved_files st + length (List.filter is_moved evs))%nat
    /\ (forall f folder tp, In (Moved f folder tp) evs -> (2 <= length tp)%nat)
    /\ (forall n content,
          st_fs r !! [n] = Some (File content) ->
          st_fs st !! [n] = Some (File content)
          /\ forall folder tp, ~ In (Moved n folder tp) evs).
Proof.
  cbv zeta. revert names.
  apply (organize_loop_cases e organize_by_name
           (fun names st r =>
              exists evs : list event,
                log r = log st ++ evs
                /\ sublist (map event_name evs) names
                /\ (moved_files st <= moved_files r
                    <= moved_files st + length (List.filter is_moved evs))%nat
                /\ (forall f folder tp,
                      In (Moved f folder tp) evs -> (2 <= length tp)%nat)
                /\ (forall n content,
                      st_fs r !! [n] = Some (File content) ->
                      st_fs st !! [n] = Some (File content)
                      /\ forall folder tp, ~ In (Moved n folder tp) evs))).
  - intros st. exists []. rewrite app_nil_r. simpl.
    split; [reflexivity|]. split; [constructor|]. split; [lia|]. split; [easy|].
    intros n content Hn. split; [exact Hn | easy].
  - intros filename rest st r _ (evs & Hlog & Hsub & Hcnt & Hlen & Htop).
    exists evs. split; [exact Hlog|]. split; [now apply sublist_cons|].
    split; [exact Hcnt|]. split; [exact Hlen | exact Htop].
  - intros filename rest st m1 _ Hmk. exists []. simpl. rewrite app_nil_r.
    split; [reflexivity|]. split; [apply sublist_nil_l|]. split; [lia|].
    split; [easy|]. intros n content Hn.
    split; [now apply (makedirs_file _ _ _ _ _ _ _ _ Hmk) | easy].
  - intros filename rest st m1 Hd Hmk _.
    destruct (move_file_step e organize_by_name filename m1 st Hd Hmk)
      as (ev & Hlog & Hname & Hcnt & Hlen & Htop).
    exists [ev]. split; [exact Hlog|].
    split; [simpl; rewrite Hname; apply sublist_skip, sublist_nil_l|].
    split; [exact Hcnt|].
    split; [intros f folder tp [E | []]; now apply (Hlen f folder tp)|].
    intros n content Hn. destruct (Htop n content Hn) as [H1 H2].
    split; [exact H1|]. intros folder tp [E | []]. now apply (H2 folder tp).
  - intros filename rest st m1 r Hd Hmk _ (evs & Hlog & Hsub & Hcnt & Hlen & Htop).
    destruct (move_file_step e organize_by_name filename m1 st Hd Hmk)
      as (ev & Hlog1 & Hname & Hcnt1 & Hlen1 & Htop1).
    exists (ev :: evs).
    split; [now rewrite Hlog, Hlog1, <- app_assoc|].
    split; [simpl; rewrite Hname; now apply sublist_skip|].
    split.
    { simpl in Hcnt1. simpl. destruct (is_moved ev); simpl in *; lia. }
    split.
    { intros f folder tp [E | Hin];
        [now apply (Hlen1 f folder tp) | now apply (Hlen f folder tp)]. }
    intros n content Hn. destruct (Htop n content Hn) as [H1 H2].
    destruct (Htop1 n content H1) as [H3 H4].
    split; [exact H3|]. intros folder tp [E | Hin];
      [now apply (H4 folder tp) | now apply (H2 folder tp)].
Qed.

Lemma top_name_inj (p q : list string) (n : string) :
  top_name p = Some n -> top_name q = Some n -> p = q.
Proof.
  destruct p as [|a [|? ?]], q as [|b [|? ?]]; simpl; try discriminate.
  now intros [= ->] [= ->].
Qed.

Lemma elem_of_listdir (m : tree) (n : string) :
  In n (listdir m) <-> is_Some (m !! [n]).
Proof.
  unfold listdir. rewrite <- list_elem_of_In, list_elem_of_omap. split.
  - intros (p & Hp & Hn). destruct p as [|a [|? ?]]; try discriminate.
    injection Hn as ->. apply list_elem_of_fmap in Hp as ([q nd] & -> & Hq).
    apply elem_of_map_to_list in Hq. simpl. now exists nd.
  - intros [nd Hnd]. exists [n]. split; [|reflexivity].
    apply list_elem_of_fmap. exists ([n], nd). split; [reflexivity|].
    now apply elem_of_map_to_list.
Qed.

Lemma NoDup_listdir (m : tree) : NoDup (listdir m).
Proof.
  unfold listdir. pose proof (NoDup_fst_map_to_list m) as H.
  change ((map_to_list m).*1) with (map fst (map_to_list m)) in H.
  induction H as [|p l Hnotin Hnd IH]; simpl; [constructor|].
  destruct (top_name p) as [n|] eqn:E; [|exact IH].
  constructor; [|exact IH].
  rewrite list_elem_of_omap. intros (q & Hq & Hn).
  apply Hnotin. now rewrite (top_name_inj p q n E Hn).
Qed.

Lemma digit_is_digit (n : nat) : Re.is_digit (digit n) = true.
Proof.
  unfold digit. pose proof (Nat.mod_upper_bound n 10) as H.
  destruct (n mod 10)%nat as [|[|[|[|[|[|[|[|[|[|k]]]]]]]]]]; try reflexivity.
  lia.
Qed.

Lemma pad2_digits (n : nat) : all_digits (pad2 n) = true.
Proof. unfold pad2. cbn [all_digits]. now rewrite !digit_is_digit. Qed.

Lemma all_digits_app (a b : string) :
  all_digits (a +:+ b) = all_digits a && all_digits b.
Proof.
  induction a as [|c a IH]; simpl; [reflexivity|].
  now rewrite IH, andb_assoc.
Qed.

Lemma date_digits_ok (t : struct_time) :
  String.length (date_digits t) = 8%nat /\ all_digits (date_digits t) = true.
Proof.
  split.
  - unfold date_digits, pad4, pad2. rewrite !length_app_str. reflexivity.
  - unfold date_digits, pad4. rewrite !all_digits_app, !pad2_digits.
    cbn [all_digits]. now rewrite !digit_is_digit, pad2_digits.
Qed.

Lemma time_digits_ok (t : struct_time) :
  String.length (time_digits t) = 6%nat /\ all_digits (time_digits t) = true.
Proof.
  split.
  - unfold time_digits, pad2. rewrite !length_app_str. reflexivity.
  - unfold time_digits. now rewrite !all_digits_app, !pad2_digits.
Qed.

Lemma new_filename_eq (e : env) (filename : string) :
  new_filename e filename
  = fst (splitext filename) +:+ "_" +:+ date_digits (localtime e filename)
      +:+ "_" +:+ time_digits (localtime e filename) +:+ snd (splitext filename).
Proof.
  unfold new_filename, strftime. destruct (splitext filename) as [name ext].
  cbn [fst snd]. now rewrite !app_assoc_str.
Qed.

Lemma new_filename_fresh (e : env) (filename : string) :
  new_filename e filename <> filename.
Proof.
  intros H. apply (f_equal String.length) in H.
  rewrite new_filename_eq in H.
  pose proof (f_equal String.length (splitext_app filename)) as E.
  rewrite length_app_str in E. rewrite !length_app_str in H.
  pose proof (proj1 (date_digits_ok (localtime e filename))) as D.
  pose proof (proj1 (time_digits_ok (localtime e filename))) as T.
  change (String.length "_") with 1%nat in H. lia.
Qed.

Lemma path_exists_lookup (m : tree) (p : list string) :
  p <> [] -> path_exists m p = true -> is_Some (m !! p).
Proof.
  unfold path_exists, stat_node. destruct p as [|c p]; [congruence|].
  intros _. destruct (m !! (c :: p)); [eauto | discriminate].
Qed.

(** C2. When the destination [folder/filename] is taken, the path handed
    to the move is [folder/name_YYYYMMDD_HHMMSSext], with [name] and [ext]
    the two parts of the filename, eight digits for the date and six for
    the time; whether the move succeeds or fails, the entry that was at
    [folder/filename] is the one that is still there, and a moved file
    sits under the stamped name. *)
Theorem collision_inserts_timestamp
    (e : env) (organize_by_name : bool) (filename content : string)
    (st : state) (m1 : tree) :
  let folder := target_folder organize_by_name filename in
  let dest := folder ++ [filename] in
  st_fs st !! [filename] = Some (File content) ->
  makedirs e [] folder (st_fs st) = (m1, true) ->
  path_exists m1 dest = true ->
  let r := organize_loop e organize_by_name [filename] st in
  let t := localtime e filename in
  let renamed :=
    fst (splitext filename) +:+ "_" +:+ date_digits t +:+ "_"
      +:+ time_digits t +:+ snd (splitext filename) in
  target_path e organize_by_name m1 filename = folder ++ [renamed]
  /\ fst (splitext filename) +:+ snd (splitext filename) = filename
  /\ (String.length (date_digits t) = 8%nat /\ all_digits (date_digits t) = true)
  /\ (String.length (time_digits t) = 6%nat /\ all_digits (time_digits t) = true)
  /\ (log r = log st ++ [Moved filename (classify organize_by_name filename)
                           (folder ++ [renamed])]
      \/ log r = log st ++ [ErrorMoving filename])
  /\ is_Some (st_fs st !! dest)
  /\ st_fs r !! dest = st_fs st !! dest
  /\ (moved_files r = S (moved_files st) ->
      st_fs r !! [filename] = None
      /\ (st_fs r !! (folder ++ [renamed]) = Some (File content)
          \/ st_fs r !! (folder ++ [renamed; filename]) = Some (File content))).
Proof.
  intros folder dest Hfile Hmk Hex r t renamed.
  assert (target_path e organize_by_name m1 filename = folder ++ [renamed]) as Htp.
  { unfold target_path. fold folder. fold dest. rewrite Hex.
    now rewrite new_filename_eq. }
  assert (folder <> []) as Hne by apply target_folder_nonempty.
  assert (renamed <> filename) as Hfresh.
  { unfold renamed, t. rewrite <- new_filename_eq. apply new_filename_fresh. }
  assert (m1 !! dest = st_fs st !! dest) as Hsame
    by (apply (makedirs_below e folder _ _ _ filename Hmk)).
  assert (forall x, (2 <= length (folder ++ x :: []))%nat) as Hlen1.
  { intros x. rewrite length_app. destruct folder; [congruence | simpl; lia]. }
  assert (dest <> [filename]) as Hd1.
  { intros E. apply (f_equal length) in E. specialize (Hlen1 filename).
    fold dest in Hlen1. rewrite E in Hlen1. simpl in Hlen1. lia. }
  assert (dest <> folder ++ [renamed]) as Hd2.
  { unfold dest. intros E. apply app_inv_head in E. congruence. }
  assert (dest <> folder ++ [renamed; filename]) as Hd3.
  { unfold dest. intros E. apply app_inv_head in E. discriminate. }
  assert (isdir (st_fs st) [filename] = false) as Hnodir
    by (unfold isdir, stat_node; now rewrite Hfile).
  split; [exact Htp|].
  split; [apply splitext_app|].
  split; [apply date_digits_ok|].
  split; [apply time_digits_ok|].
  assert (is_Some (st_fs st !! dest)) as Hsome.
  { rewrite <- Hsame. apply path_exists_lookup; [|exact Hex].
    unfold dest. intros E. apply app_eq_nil in E as [_ E]. discriminate. }
  assert (r = move_file e organize_by_name filename m1 st) as Hr.
  { subst r. simpl. rewrite Hnodir. fold folder. rewrite Hmk.
    now destruct (aborted _). }
  destruct (move_file_inv e organize_by_name filename m1 st)
    as (returned & Hmv & Hlog & Hcnt).
  rewrite <- Hr in Hmv, Hlog, Hcnt. rewrite Htp in Hmv, Hlog, Hcnt.
  clearbody r.
  split.
  { rewrite Hlog. destruct returned; [now left | now right]. }
  split; [exact Hsome|]. split.
  { rewrite <- Hsame.
    destruct (move_lookup e filename _ m1 (st_fs r) returned
                (Hlen1 renamed) Hmv dest)
      as [[E _] | [(E & _) | ([[E _] | [E _]] & _)]].
    - exact E.
    - contradiction.
    - contradiction.
    - rewrite <- app_assoc in E. contradiction. }
  intros Hc.
  destruct Hcnt as [(-> & _) | (_ & Hc' & _)]; [|lia].
  apply move_inv in Hmv
    as [[Hf _] | (real_dst & Hreal & [(_ & _ & nd & Hsrc & Hm2) | (Hf & _)])];
    try discriminate.
  rewrite (makedirs_keeps _ _ _ _ _ _ _ _ Hmk Hfile) in Hsrc. injection Hsrc as <-.
  assert (real_dst = folder ++ [renamed] \/ real_dst = folder ++ [renamed; filename])
    as Hreal'.
  { destruct Hreal as [[-> _] | [-> _]]; [now left | right].
    now rewrite <- app_assoc. }
  assert (real_dst <> [filename]) as Hrf.
  { intros ->. destruct Hreal' as [E|E]; apply (f_equal length) in E.
    - specialize (Hlen1 renamed). rewrite <- E in Hlen1. simpl in Hlen1. lia.
    - rewrite length_app in E. simpl in E. lia. }
  rewrite Hm2. split.
  - rewrite lookup_insert_ne by exact Hrf. apply lookup_delete_eq.
  - destruct Hreal' as [<- | <-]; [left | right]; apply lookup_insert_eq.
Qed.

Lemma organize_files_inv (e : env) (organize_by_name : bool) (m : tree) :
  let r := organize_files e organize_by_name m in
  sublist (map event_name (log r)) (listdir m)
  /\ (moved_files r <= length (List.filter is_moved (log r)))%nat
  /\ (forall f folder tp, In (Moved f folder tp) (log r) -> (2 <= length tp)%nat)
  /\ (forall n content,
        st_fs r !! [n] = Some (File content) ->
        m !! [n] = Some (File content)
        /\ forall folder tp, ~ In (Moved n folder tp) (log r)).
Proof.
  unfold organize_files.
  destruct (organize_loop_inv e organize_by_name (listdir m) (init m))
    as (evs & Hlog & Hsub & Hcnt & Hlen & Htop).
  simpl in *. rewrite Hlog.
  split; [exact Hsub|]. split; [lia|]. split; [exact Hlen | exact Htop].
Qed.

(** C6. A [print] that raises inside the inner [try] breaks both halves
    of the rule.  The directory holds two files, and the console cannot
    show the name of the first one listed: the file is moved, its "Moved"
    line raises before the counter is reached, the error line of the
    handler raises as well and the outer handler ends the run; the
    function returns 0 with one file moved and the second file never
    looked at.  When the move of that first file raises, the error line
    raises in the handler and the run ends in the same way instead of
    going on.  Were the files listed in the other order, both would be
    moved and 1 returned. *)
Theorem organize_stops_on_unprintable_name :
  let r := organize_files ascii_console_env false console_tree in
  let r' := organize_files locked_console_env false console_tree in
  let r2 := organize_loop ascii_console_env false
              ["z.pdf"; accented_name] (init console_tree) in
  listdir console_tree = [accented_name; "z.pdf"]
  /\ (aborted r = true
      /\ moved_files r = 0%nat
      /\ log r = [Moved accented_name "Documents/Text"
                    ["Documents"; "Text"; accented_name]]
      /\ printed r = []
      /\ st_fs r !! [accented_name] = None
      /\ st_fs r !! ["Documents"; "Text"; accented_name] = Some (File "n")
      /\ st_fs r !! ["z.pdf"] = Some (File "z"))
  /\ (aborted r' = true
      /\ moved_files r' = 0%nat
      /\ log r' = [ErrorMoving accented_name]
      /\ printed r' = []
      /\ st_fs r' !! [accented_name] = Some (File "n")
      /\ st_fs r' !! ["z.pdf"] = Some (File "z"))
  /\ (moved_files r2 = 1%nat
      /\ length (List.filter is_moved (log r2)) = 2%nat
      /\ st_fs r2 !! ["Documents"; "PDF"; "z.pdf"] = Some (File "z")
      /\ st_fs r2 !! ["Documents"; "Text"; accented_name] = Some (File "n")).
Proof.
  intros r r' r2.
  split; [vm_compute; reflexivity|]. split; [|split].
  - split; [vm_compute; reflexivity|]. split; [vm_compute; reflexivity|].
    split; [vm_compute; reflexivity|]. split; [vm_compute; reflexivity|].
    split; [vm_compute; reflexivity|]. split; vm_compute; reflexivity.
  - split; [vm_compute; reflexivity|]. split; [vm_compute; reflexivity|].
    split; [vm_compute; reflexivity|]. split; [vm_compute; reflexivity|].
    split; vm_compute; reflexivity.
  - split; [vm_compute; reflexivity|]. split; [vm_compute; reflexivity|].
    split; vm_compute; reflexivity.
Qed.

(** C10. The names the loop handles are taken from the listing of the
    tree the call starts in, in that order and each at most once; a moved
    file was an entry of that first listing and lands at least one folder
    below the directory, outside any listing of it; so no file is moved
    twice and the count is bounded by the length of the listing. *)
Theorem organize_examines_once (e : env) (organize_by_name : bool) (m : tree) :
  let r := organize_files e organize_by_name m in
  sublist (map event_name (log r)) (listdir m)
  /\ NoDup (map event_name (log r))
  /\ (forall f folder tp,
        In (Moved f folder tp) (log r) ->
        is_Some (m !! [f]) /\ (2 <= length tp)%nat /\ ~ In tp (map (fun n => [n]) (listdir (st_fs r))))
  /\ (moved_files r <= length (listdir m))%nat.
Proof.
  intros r.
  destruct (organize_files_inv e organize_by_name m) as (Hsub & Hcnt & Hlen & _).
  fold r in Hsub, Hcnt, Hlen.
  split; [exact Hsub|].
  split; [exact (sublist_NoDup _ _ (NoDup_listdir m) Hsub)|].
  split.
  - intros f folder tp Hin. split; [|split].
    + apply elem_of_listdir. apply list_elem_of_In.
      apply (elem_of_sublist _ _ _ (proj2 (list_elem_of_In _ _)
               (in_map event_name _ _ Hin)) Hsub).
    + exact (Hlen f folder tp Hin).
    + intros Htop. apply in_map_iff in Htop as (n & <- & _).
      specialize (Hlen f folder [n] Hin). simpl in Hlen. lia.
  - pose proof (filter_moved_length (log r)) as Hle.
    pose proof (sublist_length _ _ Hsub) as Hsl.
    rewrite length_map in Hsl. lia.
Qed.

(** C7. When the first run has moved every entry of the listing that is
    not a directory, every entry left at the top is a directory; a second
    run on the resulting tree (with any environment and either mode) skips
    them all: it hands no file to the move, leaves the tree as it is
    and returns 0. *)
Theorem organize_twice
    (e1 e2 : env) (by_name1 by_name2 : bool) (m : tree) :
  let r1 := organize_files e1 by_name1 m in
  (forall n, In n (listdir m) -> isdir m [n] = false ->
             exists folder tp, In (Moved n folder tp) (log r1)) ->
  let r2 := organize_files e2 by_name2 (st_fs r1) in
  (forall n, In n (listdir (st_fs r1)) -> isdir (st_fs r1) [n] = true)
  /\ moved_files r2 = 0%nat
  /\ log r2 = []
  /\ aborted r2 = false
  /\ st_fs r2 = st_fs r1.
Proof.
  intros r1 Hall r2.
  destruct (organize_files_inv e1 by_name1 m) as (_ & _ & _ & Htop).
  fold r1 in Htop.
  assert (forall n, In n (listdir (st_fs r1)) -> isdir (st_fs r1) [n] = true) as Hdirs.
  { intros n Hn. apply elem_of_listdir in Hn as [nd Hnd].
    unfold isdir, stat_node. rewrite Hnd. destruct nd as [content|]; [|reflexivity].
    exfalso. destruct (Htop n content Hnd) as [Hm Hnot].
    destruct (Hall n) as (folder & tp & Hin).
    - apply elem_of_listdir. eauto.
    - unfold isdir, stat_node. now rewrite Hm.
    - exact (Hnot folder tp Hin). }
  split; [exact Hdirs|].
  unfold r2, organize_files.
  rewrite organize_loop_dirs by exact Hdirs.
  repeat split; reflexivity.
Qed.

Lemma pair_true {A : Type} (p : A * bool) : snd p = true -> p = (fst p, true).
Proof. destruct p as [a b]. simpl. now intros ->. Qed.

Lemma collision_inserts_timestamp_witness :
  let st := init collision_tree in
  let folder := target_folder false "notes.txt" in
  let r := organize_loop sample_env false ["notes.txt"] st in
  (st_fs r !! (folder ++ ["notes.txt"]) = st_fs st !! (folder ++ ["notes.txt"]))
  /\ st_fs r !! ["Documents"; "Text"; "notes.txt"] = Some (File "old")
  /\ st_fs r !! ["Documents"; "Text"; "notes_20240309_070500.txt"]
     = Some (File "new")
  /\ st_fs r !! ["notes.txt"] = None.
Proof.
  intros st folder r.
  pose (m1 := fst (makedirs sample_env [] folder (st_fs st))).
  assert (st_fs st !! ["notes.txt"] = Some (File "new")) as H1
    by (vm_compute; reflexivity).
  assert (makedirs sample_env [] folder (st_fs st) = (m1, true)) as H2
    by (apply pair_true; vm_compute; reflexivity).
  assert (path_exists m1 (folder ++ ["notes.txt"]) = true) as H3
    by (vm_compute; reflexivity).
  pose proof (collision_inserts_timestamp sample_env false "notes.txt" "new"
                st m1 H1 H2 H3) as W.
  destruct W as (_ & _ & _ & _ & _ & _ & Hsame & _).
  split; [exact Hsame|]. repeat split; vm_compute; reflexivity.
Defined.

Lemma organize_twice_witness :
  let r1 := organize_files sample_env true sample_tree in
  moved_files r1 = 4%nat
  /\ moved_files (organize_files locked_env false (st_fs r1)) = 0%nat.
Proof.
  intros r1. split; [vm_compute; reflexivity|].
  refine (proj1 (proj2 (organize_twice sample_env locked_env true false
                          sample_tree _))).
  intros n Hn Hfile.
  assert (listdir sample_tree
          = ltac:(let l := eval vm_compute in (listdir sample_tree) in exact l))
    as E by (vm_compute; reflexivity).
  rewrite E in Hn. clear E. simpl in Hn.
  assert (log (organize_files sample_env true sample_tree)
          = ltac:(let l := eval vm_compute in
                    (log (organize_files sample_env true sample_tree)) in exact l))
    as L by (vm_compute; reflexivity).
  rewrite L. clear L.
  repeat (destruct Hn as [<- | Hn];
          [first [ discriminate Hfile
                 | eexists _, _;
                   first [ left; reflexivity
                         | right; left; reflexivity
                         | right; right; left; reflexivity
                         | right; right; right; left; reflexivity ] ] |]).
  destruct Hn.
Defined.

(* ===================================================================== *)
(** * The report walk: closed forms *)
(* ===================================================================== *)

Lemma file_step_eq (re : report_env) (root rel_path : string)
    (ds : dir_state) (file : string) :
  file_step re root rel_path ds file
  = {| file_details := file_details ds ++ [detail_entry re root file];
       directory_size :=
         directory_size ds + detail_size (detail_entry re root file);
       potential_deletions :=
         potential_deletions ds
         ++ option_list (candidate_entry re root rel_path file) |}.
Proof.
  unfold file_step, detail_entry, candidate_entry, age_of.
  destruct (getstat re root file) as [[size modified]|]; simpl.
  - destruct (is_candidate _ _ _); simpl; [reflexivity|].
    now rewrite app_nil_r.
  - now rewrite Z.add_0_r, app_nil_r.
Qed.

Lemma fold_file_step (re : report_env) (root rel_path : string)
    (files : list string) : forall ds : dir_state,
  let r := fold_left (file_step re root rel_path) files ds in
  file_details r = file_details ds ++ map (detail_entry re root) files
  /\ potential_deletions r
     = potential_deletions ds ++ omap (candidate_entry re root rel_path) files.
Proof.
  induction files as [|file files IH]; intros ds; simpl.
  - now rewrite !app_nil_r.
  - destruct (IH (file_step re root rel_path ds file)) as [Hd Hp].
    rewrite Hd, Hp, file_step_eq. simpl. rewrite <- !app_assoc. split; [reflexivity|].
    now destruct (candidate_entry re root rel_path file).
Qed.

(** The candidates a directory of the walk contributes. *)
Lemma dir_step_candidates (re : report_env) (report_filename : string)
    (ws : walk_state) (entry : string * list string) :
  candidates (dir_step re report_filename ws entry)
  = candidates ws
    ++ omap (candidate_entry re (fst entry) (display_path (fst entry)))
         (listed report_filename (snd entry)).
Proof.
  unfold dir_step. destruct (listed report_filename (snd entry)) as [|f fs] eqn:E.
  - simpl. now rewrite app_nil_r.
  - cbn [candidates]. unfold files_loop.
    now rewrite (proj2 (fold_file_step re _ _ (f :: fs) _)).
Qed.

Lemma walk_candidates (re : report_env) (report_filename : string)
    (walk : list (string * list string)) : forall ws : walk_state,
  candidates (fold_left (dir_step re report_filename) walk ws)
  = candidates ws
    ++ flat_map (fun entry =>
         omap (candidate_entry re (fst entry) (display_path (fst entry)))
           (listed report_filename (snd entry))) walk.
Proof.
  induction walk as [|entry walk IH]; intros ws; simpl.
  - now rewrite app_nil_r.
  - now rewrite IH, dir_step_candidates, <- app_assoc.
Qed.

Lemma in_listed (report_filename file : string) (files : list string) :
  In file (listed report_filename files)
  <-> In file files /\ file <> report_filename.
Proof.
  unfold listed. rewrite filter_In, negb_true_iff, String.eqb_neq. reflexivity.
Qed.

(** Membership in the final candidate list. *)
Lemma in_candidates (re : report_env) (report_filename : string)
    (walk : list (string * list string)) (c : candidate) :
  In c (candidates (walk_loop re report_filename walk))
  <-> exists root files file,
        In (root, files) walk /\ In file files /\ file <> report_filename
        /\ candidate_entry re root (display_path root) file = Some c.
Proof.
  unfold walk_loop. rewrite walk_candidates. simpl. rewrite in_flat_map. split.
  - intros ([root files] & Hin & Hc). simpl in Hc.
    apply list_elem_of_In, list_elem_of_omap in Hc as (file & Hf & Hc).
    apply list_elem_of_In, in_listed in Hf as [Hf Hne].
    now exists root, files, file.
  - intros (root & files & file & Hin & Hf & Hne & Hc).
    exists (root, files). split; [exact Hin|]. simpl.
    apply list_elem_of_In, list_elem_of_omap. exists file. split; [|exact Hc].
    apply list_elem_of_In, in_listed. now split.
Qed.

(* ===================================================================== *)
(** * The deletion-candidate test *)
(* ===================================================================== *)

Lemma category_loop_spec (cats : list string) (rel_path file : string) :
  category_loop cats rel_path file = true
  <-> exists category,
        In category cats
        /\ (occurs_in (Str.lower category) (Str.lower rel_path)
            \/ occurs_in (Str.lower category) (Str.lower file)).
Proof.
  induction cats as [|c cats IH]; simpl.
  - split; [discriminate | intros (? & [] & _)].
  - unfold category_hit at 1.
    destruct (Str.contains (Str.lower c) (Str.lower rel_path)
              || Str.contains (Str.lower c) (Str.lower file)) eqn:E.
    + split; [intros _ | reflexivity]. exists c. split; [now left|].
      apply orb_true_iff in E. now rewrite <- !contains_spec.
    + rewrite IH. split.
      * intros (k & Hin & Hk). exists k. split; [now right | exact Hk].
      * intros (k & [<- | Hin] & Hk); [|now exists k].
        rewrite <- !contains_spec, <- orb_true_iff in Hk. congruence.
Qed.

Lemma Qgt_bool_spec (a b : Q) : Qgt_bool a b = true <-> (b < a)%Q.
Proof.
  unfold Qgt_bool. rewrite negb_true_iff. split.
  - intros H. apply Qnot_le_lt. intros Hle. apply Qle_bool_iff in Hle. congruence.
  - intros H. destruct (Qle_bool a b) eqn:E; [|reflexivity].
    apply Qle_bool_iff in E. exfalso. exact (Qlt_not_le _ _ H E).
Qed.

Lemma is_candidate_spec (rel_path file : string) (age_days : Q) :
  is_candidate rel_path file age_days = true
  <-> marker_in rel_path file \/ (180 < age_days)%Q.
Proof.
  unfold is_candidate, marker_in. rewrite <- category_loop_spec, <- Qgt_bool_spec.
  destruct (Qgt_bool age_days 180); split; auto.
  intros [H | H]; [exact H | discriminate].
Qed.

Ltac no_marker_by_computation :=
  let c := fresh "category" in
  let H := fresh "Hin" in
  intros c H; rewrite <- contains_spec; unfold deletion_categories in H;
  simpl in H;
  repeat (destruct H as [<- | H]; [vm_compute; discriminate|]);
  destruct H.

Lemma no_marker_root_label : no_marker "Root Directory".
Proof. no_marker_by_computation. Qed.

Lemma no_marker_dot : no_marker ".".
Proof. no_marker_by_computation. Qed.

Lemma marker_in_no_path (rel_path file : string) :
  no_marker rel_path ->
  (marker_in rel_path file
   <-> exists category,
         In category deletion_categories
         /\ occurs_in (Str.lower category) (Str.lower file)).
Proof.
  intros Hno. unfold marker_in. split.
  - intros (c & Hin & [Hp | Hf]); [now destruct (Hno c Hin) | now exists c].
  - intros (c & Hin & Hf). exists c. split; [exact Hin | now right].
Qed.

(** Labelling the top directory ["Root Directory"] does not change the test. *)
Lemma marker_in_display (root file : string) :
  marker_in (display_path root) file <-> marker_in root file.
Proof.
  unfold display_path. destruct (String.eqb_spec root ".") as [-> | _];
    [|reflexivity].
  now rewrite (marker_in_no_path _ _ no_marker_root_label),
              (marker_in_no_path _ _ no_marker_dot).
Qed.

(** C3 (as the code has it). In the walk, a listed file whose size and
    modification time were read is put on the candidate list exactly when
    a marker word occurs in its relative directory or in its name, or its
    age is above 180 days; either reason is enough. *)
Theorem deletion_candidate_iff
    (re : report_env) (report_filename : string)
    (walk : list (string * list string))
    (root : string) (files : list string) (file : string)
    (size : Z) (modified : Q) :
  In (root, files) walk -> In file files -> file <> report_filename ->
  getstat re root file = Some (size, modified) ->
  let age_days := age_of re root file modified in
  In (display_path root, file, size, age_days)
     (candidates (walk_loop re report_filename walk))
  <-> marker_in root file \/ (180 < age_days)%Q.
Proof.
  intros Hwalk Hfile Hne Hstat age_days.
  rewrite <- marker_in_display, <- is_candidate_spec, in_candidates. split.
  - intros (root' & files' & file' & _ & _ & _ & Hc).
    unfold candidate_entry in Hc.
    destruct (getstat re root' file') as [[s m]|]; [|discriminate].
    destruct (is_candidate _ _ _) eqn:E; [|discriminate].
    clearbody age_days. remember (age_of re root' file' m) as age' eqn:Ea.
    clear Ea. congruence.
  - intros Hcand. exists root, files, file. repeat split; try assumption.
    unfold candidate_entry. rewrite Hstat. fold age_days. now rewrite Hcand.
Qed.

Lemma deletion_candidate_iff_witness :
  In ("BackupFiles", "notes.txt", 7, age_of (aged_env 7 10) "BackupFiles" "notes.txt" 0)
     (candidates (walk_loop (aged_env 7 10) default_report
                    [(".", ["a.txt"]); ("BackupFiles", ["notes.txt"])])).
Proof.
  refine (proj2 (deletion_candidate_iff (aged_env 7 10) default_report
            [(".", ["a.txt"]); ("BackupFiles", ["notes.txt"])]
            "BackupFiles" ["notes.txt"] "notes.txt" 7 0 _ _ _ _) _).
  - right. left. reflexivity.
  - left. reflexivity.
  - discriminate.
  - reflexivity.
  - left. exists "BackupFiles". split.
    + unfold deletion_categories. simpl. tauto.
    + left. apply contains_spec. vm_compute. reflexivity.
Defined.

(** Against C3 as it is worded: a file whose name contains a marker word
    is not put on the list when its metadata cannot be read. *)
Lemma unreadable_marker_file_not_listed :
  marker_in "." "cache.tmp"
  /\ candidates (walk_loop unreadable_env default_report [(".", ["cache.tmp"])])
     = [].
Proof.
  split; [|reflexivity].
  exists "Cache". split.
  - unfold deletion_categories. simpl. tauto.
  - right. apply contains_spec. vm_compute. reflexivity.
Qed.

Lemma no_marker_empty : no_marker "".
Proof. no_marker_by_computation. Qed.

Lemma category_loop_no_path (rel_path file : string) :
  no_marker rel_path ->
  category_loop deletion_categories rel_path file
  = category_loop deletion_categories "" file.
Proof.
  intros Hno. apply eq_true_iff_eq. rewrite !category_loop_spec.
  fold (marker_in rel_path file). fold (marker_in "" file).
  now rewrite (marker_in_no_path _ _ Hno), (marker_in_no_path _ _ no_marker_empty).
Qed.

(** C4 (as the code has it). Below a relative path without marker word:
    [backup_2023.zip] at 10 days is not flagged, since its name holds none
    of the marker words; [report.txt] at 200 days is flagged by its age;
    [report.txt] at 5 days is not flagged. *)
Theorem flagging_examples (rel_path : string) :
  no_marker rel_path ->
  is_candidate rel_path "backup_2023.zip" 10 = false
  /\ is_candidate rel_path "report.txt" 200 = true
  /\ is_candidate rel_path "report.txt" 5 = false.
Proof.
  intros Hno. unfold is_candidate.
  rewrite !(category_loop_no_path rel_path _ Hno).
  repeat split; vm_compute; reflexivity.
Qed.

Lemma flagging_examples_witness :
  is_candidate "Documents/Text" "backup_2023.zip" 10 = false
  /\ is_candidate "Documents/Text" "report.txt" 200 = true
  /\ is_candidate "Documents/Text" "report.txt" 5 = false.
Proof.
  apply (flagging_examples "Documents/Text").
  no_marker_by_computation.
Defined.

(** Against C4 as it is worded: [backup_2023.zip], ten days old, in the
    top directory, is not a candidate. *)
Lemma backup_zip_not_flagged :
  no_marker "Root Directory"
  /\ is_candidate "Root Directory" "backup_2023.zip" 10 = false
  /\ candidates (walk_loop (aged_env 1 10) default_report
                   [(".", ["backup_2023.zip"])]) = [].
Proof.
  split; [exact no_marker_root_label|].
  split; vm_compute; reflexivity.
Qed.

Lemma savings_block_raises (ws : walk_state) :
  candidates ws <> [] -> total_size ws = 0 ->
  savings_block ws = Raise ZeroDivisionError.
Proof.
  unfold savings_block, true_div. intros Hne ->.
  destruct (candidates ws); [congruence | reflexivity].
Qed.

(** C5 (the code divides by zero). For a tree that holds one empty file
    named [cache.txt], the candidate list is not empty and the total size
    is zero: the percentage is computed, the division raises, and
    [generate_report] returns [None]. *)
Theorem zero_total_size_divides :
  let walk := [(".", ["cache.txt"])] in
  let ws := walk_loop (aged_env 0 10) default_report walk in
  length (candidates ws) = 1%nat
  /\ total_size ws = 0
  /\ savings_block ws = Raise ZeroDivisionError
  /\ generate_report (aged_env 0 10) default_report walk = None.
Proof. repeat split; vm_compute; reflexivity. Qed.

(* ===================================================================== *)
(** * Files whose metadata cannot be read *)
(* ===================================================================== *)

Lemma insert_desc_in {A : Type} (key : A -> Z) (x y : A) (l : list A) :
  In x (insert_desc key y l) <-> x = y \/ In x l.
Proof.
  induction l as [|z l IH]; simpl.
  - intuition.
  - destruct (key y <? key z); simpl; [rewrite IH|]; intuition.
Qed.

Lemma sort_desc_in {A : Type} (key : A -> Z) (x : A) (l : list A) :
  In x (sort_desc key l) <-> In x l.
Proof.
  unfold sort_desc. induction l as [|y l IH]; simpl; [reflexivity|].
  rewrite insert_desc_in, IH. intuition.
Qed.

Lemma dir_step_sections_keep (re : report_env) (report_filename : string)
    (ws : walk_state) (entry : string * list string) (sec : section) :
  In sec (sections ws) ->
  In sec (sections (dir_step re report_filename ws entry)).
Proof.
  unfold dir_step. destruct (listed report_filename (snd entry)); [easy|].
  cbn [sections]. intros H. apply in_or_app. now left.
Qed.

Lemma walk_sections_keep (re : report_env) (report_filename : string)
    (walk : list (string * list string)) : forall (ws : walk_state) (sec : section),
  In sec (sections ws) ->
  In sec (sections (fold_left (dir_step re report_filename) walk ws)).
Proof.
  induction walk as [|entry walk IH]; intros ws sec H; simpl; [exact H|].
  apply IH. now apply dir_step_sections_keep.
Qed.

(** Every directory of the walk with a listed file has its section. *)
Lemma walk_sections_in (re : report_env) (report_filename : string)
    (walk : list (string * list string)) :
  forall (ws : walk_state) (root : string) (files : list string),
  In (root, files) walk -> listed report_filename files <> [] ->
  exists sec,
    In sec (sections (fold_left (dir_step re report_filename) walk ws))
    /\ sec_rel_path sec = display_path root
    /\ sec_count sec = length (listed report_filename files)
    /\ sec_entries sec
       = sort_desc detail_size
           (map (detail_entry re root) (listed report_filename files)).
Proof.
  induction walk as [|entry walk IH]; intros ws root files Hin Hne; [destruct Hin|].
  simpl. destruct Hin as [-> | Hin]; [|now apply IH].
  unfold dir_step at 2. cbn [fst snd].
  destruct (listed report_filename files) as [|f fs] eqn:E; [congruence|].
  eexists. split.
  - apply walk_sections_keep. cbn [sections]. apply in_or_app. right. left.
    reflexivity.
  - cbn [sec_rel_path sec_count sec_entries]. repeat split.
    unfold files_loop.
    rewrite (proj1 (fold_file_step re _ _ _ _)). reflexivity.
Qed.

Lemma omap_drop_none (re : report_env) (report_filename root file : string)
    (files : list string) :
  getstat re root file = None ->
  omap (candidate_entry re root (display_path root))
    (listed report_filename
       (List.filter (fun f => negb (String.eqb f file)) files))
  = omap (candidate_entry re root (display_path root))
      (listed report_filename files).
Proof.
  intros Hstat. unfold listed. induction files as [|f files IH]; simpl; [reflexivity|].
  destruct (String.eqb_spec f file) as [-> | Hne]; simpl.
  - destruct (negb (String.eqb file report_filename)); simpl; [|exact IH].
    unfold candidate_entry at 2. now rewrite Hstat.
  - destruct (negb (String.eqb f report_filename)); simpl; [|exact IH].
    unfold omap in IH. now rewrite IH.
Qed.

Lemma candidates_drop_file (re : report_env) (report_filename root file : string)
    (walk : list (string * list string)) :
  getstat re root file = None ->
  candidates (walk_loop re report_filename walk)
  = candidates (walk_loop re report_filename (drop_file root file walk)).
Proof.
  intros Hstat. unfold walk_loop. rewrite !walk_candidates. f_equal.
  induction walk as [|[r fs] walk IH]; simpl; [reflexivity|].
  rewrite IH. f_equal.
  destruct (String.eqb_spec r root) as [-> | Hne]; simpl; [|reflexivity].
  symmetry. now apply omap_drop_none.
Qed.

(** C9. A listed file whose size or modification time cannot be read
    leaves the entry (file, 0, 0, 0) in the section of its directory and
    nothing on the candidate list, whatever its name and path: the list is
    the one the walk yields without that file, and each of its entries
    comes from a file whose metadata was read. *)
Theorem unreadable_file_recorded_not_candidate
    (re : report_env) (report_filename : string)
    (walk : list (string * list string))
    (root : string) (files : list string) (file : string) :
  In (root, files) walk -> In file files -> file <> report_filename ->
  getstat re root file = None ->
  (forall rel_path ds,
     file_step re root rel_path ds file
     = {| file_details := file_details ds ++ [(file, 0, 0%Q, 0%Q)];
          directory_size := directory_size ds;
          potential_deletions := potential_deletions ds |})
  /\ (exists sec,
        In sec (sections (walk_loop re report_filename walk))
        /\ sec_rel_path sec = display_path root
        /\ In (file, 0, 0%Q, 0%Q) (sec_entries sec))
  /\ candidates (walk_loop re report_filename walk)
     = candidates (walk_loop re report_filename (drop_file root file walk))
  /\ (forall c,
        In c (candidates (walk_loop re report_filename walk)) ->
        exists root' files' file' size modified,
          In (root', files') walk /\ In file' files'
          /\ getstat re root' file' = Some (size, modified)
          /\ c = (display_path root', file', size,
                  age_of re root' file' modified)).
Proof.
  intros Hwalk Hfile Hne Hstat.
  assert (In file (listed report_filename files)) as Hlisted
    by (apply in_listed; now split).
  split; [|split; [|split]].
  - intros rel_path ds. unfold file_step. now rewrite Hstat.
  - destruct (walk_sections_in re report_filename walk
                {| sections := []; total_files := 0; total_size := 0;
                   candidates := [] |} root files Hwalk)
      as (sec & Hsec & Hpath & _ & Hentries).
    { intros E. rewrite E in Hlisted. destruct Hlisted. }
    exists sec. split; [exact Hsec|]. split; [exact Hpath|].
    rewrite Hentries, sort_desc_in.
    replace (file, 0, 0%Q, 0%Q) with (detail_entry re root file)
      by (unfold detail_entry; now rewrite Hstat).
    now apply in_map.
  - now apply candidates_drop_file.
  - intros c Hc. apply in_candidates in Hc
      as (root' & files' & file' & Hin & Hf & _ & Hc).
    unfold candidate_entry in Hc.
    destruct (getstat re root' file') as [[size modified]|] eqn:E; [|discriminate].
    destruct (is_candidate _ _ _); [|discriminate].
    exists root', files', file', size, modified.
    repeat split; try assumption. congruence.
Qed.

Lemma unreadable_file_recorded_not_candidate_witness :
  let ws := walk_loop unreadable_env default_report [("Cache", ["cache.tmp"])] in
  candidates ws = []
  /\ exists sec, In sec (sections ws)
       /\ sec_rel_path sec = display_path "Cache"
       /\ In ("cache.tmp", 0, 0%Q, 0%Q) (sec_entries sec).
Proof.
  intros ws. split; [reflexivity|].
  refine (proj1 (proj2 (unreadable_file_recorded_not_candidate
            unreadable_env default_report [("Cache", ["cache.tmp"])]
            "Cache" ["cache.tmp"] "cache.tmp" _ _ _ _))).
  - left. reflexivity.
  - left. reflexivity.
  - discriminate.
  - reflexivity.
Defined.

(* ===================================================================== *)
(** * [format_size]: units, rounding, order *)
(* ===================================================================== *)

Example format_size_samples :
  format_size 0 = "0 bytes" /\ format_size 1023 = "1023 bytes"
  /\ format_size 1024 = "1.0 KB" /\ format_size 1280 = "1.2 KB"
  /\ format_size 1792 = "1.8 KB" /\ format_size 1536 = "1.5 KB"
  /\ format_size 1048575 = "1024.0 KB" /\ format_size 1048576 = "1.0 MB"
  /\ format_size 5368709120 = "5.0 GB".
Proof. repeat split; vm_compute; reflexivity. Qed.

Lemma tenths_close (a b : Z) :
  0 < b -> Z.abs (10 * a - b * tenths a b) * 2 <= b.
Proof.
  intros Hb. unfold tenths.
  pose proof (Z.div_mod (10 * a) b ltac:(lia)) as Hdm.
  pose proof (Z.mod_pos_bound (10 * a) b Hb) as Hr.
  destruct (2 * ((10 * a) mod b) <? b) eqn:E1.
  - apply Z.ltb_lt in E1. lia.
  - apply Z.ltb_ge in E1.
    destruct (b <? 2 * ((10 * a) mod b)) eqn:E2.
    + apply Z.ltb_lt in E2. lia.
    + apply Z.ltb_ge in E2. destruct (Z.even _); lia.
Qed.

Lemma tenths_mono (a a' b : Z) :
  0 < b -> a <= a' -> tenths a b <= tenths a' b.
Proof.
  intros Hb Hle. unfold tenths.
  pose proof (Z.div_mod (10 * a) b ltac:(lia)) as Hdm.
  pose proof (Z.mod_pos_bound (10 * a) b Hb) as Hr.
  pose proof (Z.div_mod (10 * a') b ltac:(lia)) as Hdm'.
  pose proof (Z.mod_pos_bound (10 * a') b Hb) as Hr'.
  assert ((10 * a) / b <= (10 * a') / b) as Hq
    by (apply Z.div_le_mono; lia).
  set (q := (10 * a) / b) in *. set (r := (10 * a) mod b) in *.
  set (q' := (10 * a') / b) in *. set (r' := (10 * a') mod b) in *.
  destruct (Z.eq_dec q q') as [<- | Hne].
  - assert (r <= r') by nia.
    destruct (2 * r <? b) eqn:E1; destruct (2 * r' <? b) eqn:E1';
      destruct (b <? 2 * r) eqn:E2; destruct (b <? 2 * r') eqn:E2';
      destruct (Z.even q); try lia;
      repeat match goal with
             | H : (_ <? _) = true |- _ => apply Z.ltb_lt in H
             | H : (_ <? _) = false |- _ => apply Z.ltb_ge in H
             end; lia.
  - assert (q + 1 <= q') by lia.
    destruct (2 * r <? b); destruct (2 * r' <? b);
      destruct (b <? 2 * r); destruct (b <? 2 * r');
      destruct (Z.even q); destruct (Z.even q'); lia.
Qed.

Lemma tenths_exact (n b : Z) : 0 < b -> tenths (n * b) b = 10 * n.
Proof.
  intros Hb. unfold tenths.
  replace (10 * (n * b)) with (10 * n * b) by lia.
  rewrite Z.div_mul, Z.mod_mul by lia.
  replace (2 * 0 <? b) with true by (symmetry; apply Z.ltb_lt; lia).
  reflexivity.
Qed.

Lemma tenths_range (size unit_ : Z) :
  0 < unit_ -> unit_ <= size -> size <= 1024 * unit_ ->
  10 <= tenths size unit_ <= 10240.
Proof.
  intros Hu Hlo Hhi. split.
  - replace 10 with (10 * 1) by lia. rewrite <- (tenths_exact 1 unit_ Hu).
    apply tenths_mono; lia.
  - replace 10240 with (10 * 1024) by lia. rewrite <- (tenths_exact 1024 unit_ Hu).
    apply tenths_mono; lia.
Qed.

(** X1. [format_size] picks the unit by the thresholds 1024, 1024^2 and
    1024^3; the number shown with KB, MB or GB is the quotient rounded to
    one decimal, at most 0.05 away from it, never below 1.0 and, for KB
    and MB, never above 1024.0. *)
Theorem format_size_shape (size : Z) :
  0 <= size < 2 ^ 53 ->
  (size < KB -> format_size size = pretty size +:+ " bytes")
  /\ (KB <= size < MB ->
      format_size size = one_decimal size KB +:+ " KB"
      /\ 10 <= tenths size KB <= 10240
      /\ Z.abs (10 * size - KB * tenths size KB) * 2 <= KB)
  /\ (MB <= size < GB ->
      format_size size = one_decimal size MB +:+ " MB"
      /\ 10 <= tenths size MB <= 10240
      /\ Z.abs (10 * size - MB * tenths size MB) * 2 <= MB)
  /\ (GB <= size ->
      format_size size = one_decimal size GB +:+ " GB"
      /\ 10 <= tenths size GB
      /\ Z.abs (10 * size - GB * tenths size GB) * 2 <= GB).
Proof.
  intros Hsize. unfold format_size, KB, MB, GB.
  split; [|split; [|split]].
  - intros H. now rewrite (proj2 (Z.ltb_lt size 1024)) by lia.
  - intros H. rewrite (proj2 (Z.ltb_ge size 1024)) by lia.
    rewrite (proj2 (Z.ltb_lt size (1024 * 1024))) by lia.
    split; [reflexivity|]. split; [apply tenths_range; lia|].
    apply tenths_close; lia.
  - intros H. rewrite (proj2 (Z.ltb_ge size 1024)) by lia.
    rewrite (proj2 (Z.ltb_ge size (1024 * 1024))) by lia.
    rewrite (proj2 (Z.ltb_lt size (1024 * 1024 * 1024))) by lia.
    split; [reflexivity|]. split; [apply tenths_range; lia|].
    apply tenths_close; lia.
  - intros H. rewrite (proj2 (Z.ltb_ge size 1024)) by lia.
    rewrite (proj2 (Z.ltb_ge size (1024 * 1024))) by lia.
    rewrite (proj2 (Z.ltb_ge size (1024 * 1024 * 1024))) by lia.
    split; [reflexivity|]. split.
    + replace 10 with (10 * 1) by lia.
      rewrite <- (tenths_exact 1 (1024 * 1024 * 1024)) by lia.
      apply tenths_mono; lia.
    + apply tenths_close; lia.
Qed.

Lemma format_size_shape_witness :
  format_size 1536 = one_decimal 1536 KB +:+ " KB"
  /\ 10 <= tenths 1536 KB <= 10240
  /\ Z.abs (10 * 1536 - KB * tenths 1536 KB) * 2 <= KB.
Proof.
  apply (proj1 (proj2 (format_size_shape 1536 ltac:(lia)))).
  unfold KB, MB. lia.
Defined.

(** X2. Just below a unit boundary the smaller unit is kept and the
    number is rounded up to 1024.0: the last 51 sizes below 1024^2 print
    as "1024.0 KB" and the last 52428 below 1024^3 as "1024.0 MB". *)
Theorem format_size_below_boundary (size : Z) :
  (MB - 51 <= size < MB -> format_size size = "1024.0 KB")
  /\ (GB - 52428 <= size < GB -> format_size size = "1024.0 MB").
Proof.
  unfold MB, GB. split; intros H.
  - assert (tenths size 1024 = 10240) as Ht.
    { pose proof (tenths_mono (1024 * 1024 - 51) size 1024 ltac:(lia) ltac:(lia)).
      pose proof (tenths_mono size (1024 * 1024) 1024 ltac:(lia) ltac:(lia)).
      assert (tenths (1024 * 1024 - 51) 1024 = 10240) as E1 by (vm_compute; reflexivity).
      assert (tenths (1024 * 1024) 1024 = 10240) as E2 by (vm_compute; reflexivity).
      lia. }
    unfold format_size, one_decimal.
    rewrite (proj2 (Z.ltb_ge size 1024)) by lia.
    rewrite (proj2 (Z.ltb_lt size (1024 * 1024))) by lia.
    rewrite Ht. vm_compute. reflexivity.
  - assert (tenths size (1024 * 1024) = 10240) as Ht.
    { pose proof (tenths_mono (1024 * 1024 * 1024 - 52428) size (1024 * 1024)
                    ltac:(lia) ltac:(lia)).
      pose proof (tenths_mono size (1024 * 1024 * 1024) (1024 * 1024)
                    ltac:(lia) ltac:(lia)).
      assert (tenths (1024 * 1024 * 1024 - 52428) (1024 * 1024) = 10240) as E1
        by (vm_compute; reflexivity).
      assert (tenths (1024 * 1024 * 1024) (1024 * 1024) = 10240) as E2
        by (vm_compute; reflexivity).
      lia. }
    unfold format_size, one_decimal.
    rewrite (proj2 (Z.ltb_ge size 1024)) by lia.
    rewrite (proj2 (Z.ltb_ge size (1024 * 1024))) by lia.
    rewrite (proj2 (Z.ltb_lt size (1024 * 1024 * 1024))) by lia.
    rewrite Ht. vm_compute. reflexivity.
Qed.

(* ===================================================================== *)
(** * The report: sections and totals *)
(* ===================================================================== *)

Lemma insert_desc_perm {A : Type} (key : A -> Z) (x : A) (l : list A) :
  Permutation (insert_desc key x l) (x :: l).
Proof.
  induction l as [|y l IH]; simpl; [reflexivity|].
  destruct (key x <? key y); [|reflexivity].
  rewrite IH. apply perm_swap.
Qed.

Lemma sort_desc_perm {A : Type} (key : A -> Z) (l : list A) :
  Permutation (sort_desc key l) l.
Proof.
  unfold sort_desc. induction l as [|x l IH]; simpl; [reflexivity|].
  now rewrite insert_desc_perm, IH.
Qed.

Lemma insert_desc_sorted {A : Type} (key : A -> Z) (x : A) (l : list A) :
  by_size_desc key l -> by_size_desc key (insert_desc key x l).
Proof.
  unfold by_size_desc. induction l as [|y l IH]; intros Hs; simpl.
  - repeat constructor.
  - apply StronglySorted_inv in Hs as [Hs Hall].
    destruct (key x <? key y) eqn:E.
    + apply Z.ltb_lt in E. constructor; [now apply IH|].
      rewrite List.Forall_forall in *. intros b Hb.
      apply insert_desc_in in Hb as [-> | Hb]; [lia | now apply Hall].
    + apply Z.ltb_ge in E. constructor; [now constructor|].
      constructor; [exact E|].
      rewrite List.Forall_forall in *. intros b Hb. specialize (Hall b Hb). lia.
Qed.

Lemma sort_desc_sorted {A : Type} (key : A -> Z) (l : list A) :
  by_size_desc key (sort_desc key l).
Proof.
  unfold sort_desc. induction l as [|x l IH]; simpl.
  - constructor.
  - now apply insert_desc_sorted.
Qed.

Lemma Zsum_app (l1 l2 : list Z) : Zsum (l1 ++ l2) = Zsum l1 + Zsum l2.
Proof. unfold Zsum. induction l1 as [|x l1 IH]; simpl; lia. Qed.

Lemma Zsum_perm (l1 l2 : list Z) : Permutation l1 l2 -> Zsum l1 = Zsum l2.
Proof. unfold Zsum. induction 1; simpl; lia. Qed.

Lemma fold_file_step_size (re : report_env) (root rel_path : string)
    (files : list string) : forall ds : dir_state,
  directory_size (fold_left (file_step re root rel_path) files ds)
  = directory_size ds
    + Zsum (map (fun f => detail_size (detail_entry re root f)) files).
Proof.
  induction files as [|file files IH]; intros ds; simpl.
  - unfold Zsum. simpl. lia.
  - rewrite IH, file_step_eq. unfold Zsum. simpl. lia.
Qed.

(** What one directory with a listed file adds to the walk state. *)
Lemma dir_step_listed (re : report_env) (report_filename : string)
    (ws : walk_state) (root : string) (files : list string) :
  listed report_filename files <> [] ->
  exists sec,
    sections (dir_step re report_filename ws (root, files)) = sections ws ++ [sec]
    /\ total_files (dir_step re report_filename ws (root, files))
       = (total_files ws + sec_count sec)%nat
    /\ total_size (dir_step re report_filename ws (root, files))
       = total_size ws + sec_size sec
    /\ sec_rel_path sec = display_path root
    /\ sec_count sec = length (listed report_filename files)
    /\ sec_entries sec
       = sort_desc detail_size
           (map (detail_entry re root) (listed report_filename files))
    /\ sec_size sec
       = Zsum (map (fun f => detail_size (detail_entry re root f))
                 (listed report_filename files)).
Proof.
  intros Hne. unfold dir_step. cbn [fst snd].
  destruct (listed report_filename files) as [|f fs] eqn:E; [congruence|].
  eexists. cbn [sections total_files total_size]. split; [reflexivity|].
  cbn [sec_rel_path sec_count sec_entries sec_size].
  repeat split.
  - unfold files_loop. now rewrite (proj1 (fold_file_step re _ _ _ _)).
  - unfold files_loop. rewrite fold_file_step_size. simpl. lia.
Qed.

Lemma dir_step_unlisted (re : report_env) (report_filename : string)
    (ws : walk_state) (root : string) (files : list string) :
  listed report_filename files = [] ->
  dir_step re report_filename ws (root, files) = ws.
Proof. intros E. unfold dir_step. cbn [fst snd]. now rewrite E. Qed.

Lemma walk_sections_from (re : report_env) (report_filename : string)
    (walk : list (string * list string)) :
  forall (ws : walk_state) (sec : section),
  In sec (sections (fold_left (dir_step re report_filename) walk ws)) ->
  In sec (sections ws)
  \/ exists root files,
       In (root, files) walk /\ listed report_filename files <> []
       /\ sec_rel_path sec = display_path root
       /\ sec_count sec = length (listed report_filename files)
       /\ sec_entries sec
          = sort_desc detail_size
              (map (detail_entry re root) (listed report_filename files))
       /\ sec_size sec
          = Zsum (map (fun f => detail_size (detail_entry re root f))
                    (listed report_filename files)).
Proof.
  induction walk as [|[root files] walk IH]; intros ws sec Hin; simpl in Hin;
    [now left|].
  destruct (IH _ _ Hin) as [Hws | (r & fs & Hr & Hrest)].
  - destruct (listed report_filename files) as [|f l] eqn:E.
    + rewrite dir_step_unlisted in Hws by exact E. now left.
    + destruct (dir_step_listed re report_filename ws root files)
        as (sec' & Hs & _ & _ & Hp & Hc & He & Hz); [congruence|].
      rewrite Hs in Hws. apply in_app_or in Hws as [Hws | [<- | []]]; [now left|].
      right. exists root, files. split; [now left|].
      repeat split; try assumption. congruence.
  - right. exists r, fs. split; [now right | exact Hrest].
Qed.

(** X3. Every section of the report belongs to a directory of the walk
    with at least one listed file: its entries are the tuples of that
    directory's listed files, largest size first; the count in its header
    is the number of entries and its size is the sum of their sizes. *)
Theorem report_sections
    (re : report_env) (report_filename : string)
    (walk : list (string * list string)) (sec : section) :
  In sec (sections (walk_loop re report_filename walk)) ->
  exists root files,
    In (root, files) walk
    /\ sec_rel_path sec = display_path root
    /\ Permutation (sec_entries sec)
         (map (detail_entry re root) (listed report_filename files))
    /\ by_size_desc detail_size (sec_entries sec)
    /\ (0 < sec_count sec)%nat
    /\ sec_count sec = length (sec_entries sec)
    /\ sec_size sec = Zsum (map detail_size (sec_entries sec)).
Proof.
  intros Hin. unfold walk_loop in Hin.
  apply walk_sections_from in Hin as [[] | (root & files & Hw & Hne & Hp & Hc & He & Hz)].
  exists root, files. split; [exact Hw|]. split; [exact Hp|].
  assert (Permutation (sec_entries sec)
            (map (detail_entry re root) (listed report_filename files))) as Hperm
    by (rewrite He; apply sort_desc_perm).
  split; [exact Hperm|].
  split; [rewrite He; apply sort_desc_sorted|].
  split; [rewrite Hc; destruct (listed report_filename files);
          [congruence | simpl; lia]|].
  split.
  - rewrite Hc, (Permutation_length Hperm). now rewrite length_map.
  - rewrite Hz, (Zsum_perm _ _ (Permutation_map detail_size Hperm)).
    now rewrite map_map.
Qed.

Lemma report_sections_witness :
  let sec :=
    {| sec_rel_path := display_path ".";
       sec_count := 2;
       sec_entries :=
         sort_desc detail_size (map (detail_entry (aged_env 7 1) ".") ["a"; "b"]);
       sec_size := directory_size
         (files_loop (aged_env 7 1) "." (display_path ".") ["a"; "b"] []) |} in
  exists root files,
    In (root, files) [(".", ["a"; "file_organization_report.txt"; "b"])]
    /\ sec_rel_path sec = display_path root
    /\ by_size_desc detail_size (sec_entries sec)
    /\ sec_count sec = length (sec_entries sec)
    /\ sec_size sec = Zsum (map detail_size (sec_entries sec)).
Proof.
  intros sec.
  destruct (report_sections (aged_env 7 1) default_report
              [(".", ["a"; "file_organization_report.txt"; "b"])] sec)
    as (root & files & Hw & Hp & _ & Hs & _ & Hc & Hz).
  - left. reflexivity.
  - exists root, files. repeat split; assumption.
Defined.

Lemma walk_totals_from (re : report_env) (report_filename : string)
    (walk : list (string * list string)) : forall ws : walk_state,
  let r := fold_left (dir_step re report_filename) walk ws in
  let all_files := flat_map (fun entry => listed report_filename (snd entry)) walk in
  let all_sizes :=
    flat_map (fun entry =>
                map (fun f => detail_size (detail_entry re (fst entry) f))
                  (listed report_filename (snd entry))) walk in
  total_files r = (total_files ws + length all_files)%nat
  /\ total_size r = total_size ws + Zsum all_sizes
  /\ list_sum (map sec_count (sections r))
     = (list_sum (map sec_count (sections ws)) + length all_files)%nat
  /\ Zsum (map sec_size (sections r))
     = Zsum (map sec_size (sections ws)) + Zsum all_sizes.
Proof.
  induction walk as [|[root files] walk IH]; intros ws; simpl.
  - unfold Zsum. simpl. repeat split; lia.
  - destruct (IH (dir_step re report_filename ws (root, files)))
      as (H1 & H2 & H3 & H4).
    rewrite H1, H2, H3, H4, length_app, Zsum_app. clear IH H1 H2 H3 H4.
    destruct (listed report_filename files) as [|f l] eqn:E.
    + rewrite dir_step_unlisted by exact E. unfold Zsum. simpl.
      repeat split; lia.
    + destruct (dir_step_listed re report_filename ws root files)
        as (sec & Hs & Hf & Hz & _ & Hc & _ & Hsz); [congruence|].
      rewrite Hs, Hf, Hz, !map_app, list_sum_app, Zsum_app.
      change (list_sum (map sec_count [sec])) with (sec_count sec + 0)%nat.
      change (Zsum (map sec_size [sec])) with (sec_size sec + 0).
      rewrite Hc, Hsz, E. repeat split; lia.
Qed.

(** X4. The totals of the summary: "Total Files" is the number of listed
    files of the whole walk (the report file left out, unreadable files
    counted), "Total Size" is the sum of the sizes that were read (an
    unreadable file adds 0); both equal the sums of the counts and sizes
    in the section headers. *)
Theorem report_totals
    (re : report_env) (report_filename : string)
    (walk : list (string * list string)) :
  let ws := walk_loop re report_filename walk in
  total_files ws
  = length (flat_map (fun entry => listed report_filename (snd entry)) walk)
  /\ total_size ws
     = Zsum (flat_map (fun entry =>
                         map (fun f => detail_size (detail_entry re (fst entry) f))
                           (listed report_filename (snd entry))) walk)
  /\ total_files ws = list_sum (map sec_count (sections ws))
  /\ total_size ws = Zsum (map sec_size (sections ws)).
Proof.
  intros ws. unfold ws, walk_loop.
  destruct (walk_totals_from re report_filename walk
              {| sections := []; total_files := 0; total_size := 0;
                 candidates := [] |}) as (H1 & H2 & H3 & H4).
  cbn [sections total_files total_size map] in H1, H2, H3, H4.
  change (Zsum []) with 0 in H4. change (list_sum []) with 0%nat in H3.
  repeat split; lia.
Qed.

(* ===================================================================== *)
(** * The report: the candidate summary *)
(* ===================================================================== *)

Lemma potential_savings_sum (pd : list candidate) :
  potential_savings pd = Zsum (map candidate_size pd).
Proof.
  unfold potential_savings.
  assert (forall acc, fold_left (fun a c => a + candidate_size c) pd acc
                      = acc + Zsum (map candidate_size pd)) as H.
  { induction pd as [|c pd IH]; intros acc; simpl.
    - unfold Zsum. simpl. lia.
    - rewrite IH. unfold Zsum. simpl. lia. }
  rewrite H. lia.
Qed.

Lemma detail_size_nonneg (re : report_env) (root file : string) :
  sizes_nonneg re -> 0 <= detail_size (detail_entry re root file).
Proof.
  intros Hnn. unfold detail_entry, detail_size.
  destruct (getstat re root file) as [[size modified]|] eqn:E; simpl; [|lia].
  exact (Hnn _ _ _ _ E).
Qed.



(** The candidates of one directory weigh no more than its files. *)
Lemma dir_candidates_le (re : report_env) (root rel_path : string)
    (files : list string) :
  sizes_nonneg re ->
  0 <= Zsum (map candidate_size (omap (candidate_entry re root rel_path) files))
    <= Zsum (map (fun f => detail_size (detail_entry re root f)) files).
Proof.
  intros Hnn. induction files as [|f files IH].
  - unfold Zsum. simpl. lia.
  - pose proof (detail_size_nonneg re root f Hnn) as Hf.
    change (omap (candidate_entry re root rel_path) (f :: files))
      with (match candidate_entry re root rel_path f with
            | Some c => c :: omap (candidate_entry re root rel_path) files
            | None => omap (candidate_entry re root rel_path) files
            end).
    change (Zsum (map (fun f0 => detail_size (detail_entry re root f0)) (f :: files)))
      with (detail_size (detail_entry re root f)
            + Zsum (map (fun f0 => detail_size (detail_entry re root f0)) files)).
    assert (match candidate_entry re root rel_path f with
            | Some c => candidate_size c = detail_size (detail_entry re root f)
            | None => True
            end) as Hc.
    { unfold candidate_entry, detail_entry.
      destruct (getstat re root f) as [[size modified]|]; [|exact I].
      now destruct (is_candidate _ _ _). }
    destruct (candidate_entry re root rel_path f) as [c|].
    + change (Zsum (map candidate_size (c :: omap (candidate_entry re root rel_path) files)))
        with (candidate_size c
              + Zsum (map candidate_size (omap (candidate_entry re root rel_path) files))).
      lia.
    + lia.
Qed.

Lemma walk_candidates_le (re : report_env) (report_filename : string)
    (walk : list (string * list string)) :
  sizes_nonneg re ->
  let ws := walk_loop re report_filename walk in
  0 <= Zsum (map candidate_size (candidates ws)) <= total_size ws.
Proof.
  intros Hnn ws. unfold ws, walk_loop.
  destruct (walk_totals_from re report_filename walk
              {| sections := []; total_files := 0; total_size := 0;
                 candidates := [] |}) as (_ & H2 & _).
  cbn [total_size] in H2. rewrite H2, walk_candidates. cbn [candidates app].
  clear H2 ws. induction walk as [|[root files] walk IH].
  - unfold Zsum. simpl. lia.
  - cbn [flat_map fst snd]. rewrite map_app, !Zsum_app.
    pose proof (dir_candidates_le re root (display_path root)
                  (listed report_filename files) Hnn). lia.
Qed.

Lemma share_bounds (savings total : Z) :
  0 <= savings <= total -> 0 < total ->
  (0 <= inject_Z savings / inject_Z total * 100 <= 100)%Q.
Proof.
  intros Hs Ht. destruct total as [|p|p]; try lia.
  unfold Qle, Qdiv, Qmult, Qinv, inject_Z. simpl.
  rewrite ?Pos.mul_1_r, ?Z.mul_1_r. split; nia.
Qed.

(** X6. When the candidate block is written, it lists the candidates of
    the walk largest first; the savings are the sum of their sizes, lie
    between 0 and the total size, and the percentage shown lies between 0
    and 100. *)
Theorem savings_block_ok
    (re : report_env) (report_filename : string)
    (walk : list (string * list string))
    (sorted : list candidate) (savings : Z) (share : Q) :
  sizes_nonneg re ->
  let ws := walk_loop re report_filename walk in
  savings_block ws = Ok (Some (sorted, savings, share)) ->
  Permutation sorted (candidates ws)
  /\ by_size_desc candidate_size sorted
  /\ savings = Zsum (map candidate_size sorted)
  /\ 0 <= savings <= total_size ws
  /\ 0 < total_size ws
  /\ (0 <= share <= 100)%Q.
Proof.
  intros Hnn ws Hblk.
  pose proof (walk_candidates_le re report_filename walk Hnn) as Hle.
  fold ws in Hle. cbv zeta in Hle.
  unfold savings_block, true_div in Hblk.
  destruct (candidates ws) as [|c cs] eqn:Ec; [discriminate|].
  destruct (total_size ws =? 0) eqn:Ez; [discriminate|].
  apply Z.eqb_neq in Ez.
  remember (sort_desc candidate_size (c :: cs)) as l eqn:El.
  assert (Permutation l (c :: cs)) as Hperm by (subst l; apply sort_desc_perm).
  assert (potential_savings l = Zsum (map candidate_size (c :: cs))) as Hsum.
  { rewrite potential_savings_sum.
    apply Zsum_perm, Permutation_map, Hperm. }
  injection Hblk as <- <- <-.
  split; [exact Hperm|].
  split; [subst l; apply sort_desc_sorted|].
  split; [apply potential_savings_sum|].
  rewrite Hsum.
  split; [exact Hle|]. split; [lia|].
  apply share_bounds; lia.
Qed.

Lemma savings_block_ok_witness :
  exists sorted savings share,
    savings_block (walk_loop (aged_env 7 200) default_report
                     [(".", ["a.txt"; "b.txt"])])
    = Ok (Some (sorted, savings, share))
    /\ 0 <= savings <= 14 /\ (0 <= share <= 100)%Q.
Proof.
  eexists _, _, _. split; [vm_compute; reflexivity|].
  match goal with |- 0 <= ?sv <= _ /\ (0 <= ?sh <= _)%Q =>
    pose proof (savings_block_ok (aged_env 7 200) default_report
                  [(".", ["a.txt"; "b.txt"])]
                  (sort_desc candidate_size
                     (candidates (walk_loop (aged_env 7 200) default_report
                                    [(".", ["a.txt"; "b.txt"])])))
                  sv sh) as W
  end.
  destruct W as (_ & _ & _ & Hs & _ & Hq).
  - intros root file size modified [= <- _]. lia.
  - vm_compute. reflexivity.
  - split; [exact Hs | exact Hq].
Defined.





(** X8. Organising by name feeds the report: a file that name matching
    files under BackupFiles, TemporaryFiles, OldFiles or Downloads is, when
    the report later reads it in that folder, a deletion candidate whatever
    its age. *)
Theorem organized_markers_are_candidates
    (re : report_env) (report_filename : string)
    (walk : list (string * list string))
    (filename : string) (files : list string) (size : Z) (modified : Q) :
  let folder := classify true filename in
  In folder ["BackupFiles"; "TemporaryFiles"; "OldFiles"; "Downloads"] ->
  In (folder, files) walk -> In filename files -> filename <> report_filename ->
  getstat re folder filename = Some (size, modified) ->
  target_folder true filename = [folder]
  /\ In (folder, filename, size, age_of re folder filename modified)
       (candidates (walk_loop re report_filename walk)).
Proof.
  intros folder Hfolder Hw Hf Hne Hstat.
  assert (target_folder true filename = [folder]
          /\ display_path folder = folder
          /\ category_loop deletion_categories folder filename = true)
    as (Htf & Hdisp & Hloop).
  { unfold target_folder. fold folder. clearbody folder.
    simpl in Hfolder.
    destruct Hfolder as [<- | [<- | [<- | [<- | []]]]];
      (split; [reflexivity | split; [reflexivity|]]);
      apply category_loop_spec.
    - exists "BackupFiles". split; [simpl; tauto | left; now exists "", ""].
    - exists "TemporaryFiles". split; [simpl; tauto | left; now exists "", ""].
    - exists "OldFiles". split; [simpl; tauto | left; now exists "", ""].
    - exists "Downloads". split; [simpl; tauto | left; now exists "", ""]. }
  split; [exact Htf|].
  apply in_candidates. exists folder, files, filename.
  repeat split; try assumption.
  unfold candidate_entry. rewrite Hstat, Hdisp.
  unfold is_candidate. rewrite Hloop.
  now destruct (Qgt_bool _ _).
Qed.

Lemma organized_markers_are_candidates_witness :
  In ("BackupFiles", "notes_backup.txt", 7,
      age_of (aged_env 7 1) "BackupFiles" "notes_backup.txt" 0)
     (candidates (walk_loop (aged_env 7 1) default_report
                    [("BackupFiles", ["notes_backup.txt"])])).
Proof.
  refine (proj2 (organized_markers_are_candidates (aged_env 7 1) default_report
            [("BackupFiles", ["notes_backup.txt"])] "notes_backup.txt"
            ["notes_backup.txt"] 7 0 _ _ _ _ _)).
  - left. reflexivity.
  - left. reflexivity.
  - left. reflexivity.
  - discriminate.
  - reflexivity.
Defined.

(* ===================================================================== *)
(** * The organiser: what a run changes *)
(* ===================================================================== *)

Lemma isdir_false_not_dir (m : tree) (p : list string) :
  isdir m p = false -> m !! p <> Some Dir.
Proof.
  unfold isdir, stat_node. destruct p as [|c p]; [discriminate|].
  intros H E. now rewrite E in H.
Qed.

(** X9. A run never removes or replaces a directory: every directory of
    the tree the run starts in is a directory of the tree it leaves. *)
Theorem organize_keeps_directories
    (e : env) (organize_by_name : bool) (names : list string) :
  forall (st : state) (p : list string),
  st_fs st !! p = Some Dir ->
  st_fs (organize_loop e organize_by_name names st) !! p = Some Dir.
Proof.
  induction names as [|filename names IH]; intros st p Hp; simpl; [exact Hp|].
  destruct (isdir (st_fs st) [filename]) eqn:Hdir; [now apply IH|].
  destruct (makedirs e [] _ (st_fs st)) as [m1 [|]] eqn:Hmk;
    [|simpl; exact (makedirs_keeps _ _ _ _ _ _ _ _ Hmk Hp)].
  pose proof (makedirs_keeps _ _ _ _ _ _ _ _ Hmk Hp) as Hp1.
  assert (st_fs (move_file e organize_by_name filename m1 st) !! p = Some Dir)
    as Hp2.
  { destruct (move_file_inv e organize_by_name filename m1 st)
      as (returned & Hmv & _).
    destruct (move_lookup e filename _ m1 _ returned
                (target_path_length e organize_by_name m1 filename) Hmv p)
      as [[E _] | [(E & _) | ([[E Hnd] | [E Hnone]] & _)]].
    - now rewrite E.
    - subst p. apply isdir_false_not_dir in Hdir. contradiction.
    - subst p. apply isdir_false_not_dir in Hnd. contradiction.
    - congruence. }
  destruct (aborted (move_file e organize_by_name filename m1 st));
    [exact Hp2 | now apply IH].
Qed.

Lemma organize_keeps_directories_witness :
  st_fs (organize_files sample_env true sample_tree) !! ["Archive"] = Some Dir.
Proof.
  apply (organize_keeps_directories sample_env true (listdir sample_tree)
           (init sample_tree) ["Archive"]).
  vm_compute. reflexivity.
Defined.

(** X10. A run never changes or removes a regular file that was there
    before, except the top-level files it handles and a file that sits at
    the time-stamped name a colliding file is given. *)
Theorem organize_overwrites_only_stamped
    (e : env) (organize_by_name : bool) (names : list string) :
  forall (st : state) (p : list string) (content : string),
  st_fs st !! p = Some (File content) ->
  st_fs (organize_loop e organize_by_name names st) !! p = Some (File content)
  \/ exists filename,
       In filename names
       /\ (p = [filename]
           \/ p = target_folder organize_by_name filename
                  ++ [new_filename e filename]).
Proof.
  induction names as [|filename names IH]; intros st p content Hp; simpl;
    [now left|].
  assert (forall st',
            st_fs st' !! p = Some (File content) ->
            st_fs (organize_loop e organize_by_name names st') !! p
              = Some (File content)
            \/ exists f, (filename = f \/ In f names)
                 /\ (p = [f] \/ p = target_folder organize_by_name f
                                    ++ [new_filename e f])) as Hnext.
  { intros st' Hp'. destruct (IH st' p content Hp') as [H | (f & Hf & Hpf)];
      [now left | right]. exists f. split; [now right | exact Hpf]. }
  destruct (isdir (st_fs st) [filename]) eqn:Hdir; [now apply Hnext|].
  destruct (makedirs e [] _ (st_fs st)) as [m1 [|]] eqn:Hmk;
    [|left; simpl; exact (makedirs_keeps _ _ _ _ _ _ _ _ Hmk Hp)].
  pose proof (makedirs_keeps _ _ _ _ _ _ _ _ Hmk Hp) as Hp1.
  assert (st_fs (move_file e organize_by_name filename m1 st) !! p
          = Some (File content)
          \/ p = [filename]
          \/ p = target_folder organize_by_name filename
                 ++ [new_filename e filename]) as Hstep.
  { destruct (move_file_inv e organize_by_name filename m1 st)
      as (returned & Hmv & _).
    destruct (move_lookup e filename _ m1 _ returned
                (target_path_length e organize_by_name m1 filename) Hmv p)
      as [[E _] | [(E & _) | ([[E Hnd] | [E Hnone]] & _)]].
    - left. now rewrite E.
    - right. now left.
    - right. right. rewrite E in Hp1 |- *. unfold target_path in Hp1 |- *.
      destruct (path_exists m1 _) eqn:Hex; [reflexivity|].
      apply path_exists_false in Hex. congruence.
    - congruence. }
  destruct Hstep as [H2 | Hf];
    [|right; exists filename; split; [now left | exact Hf]].
  destruct (aborted (move_file e organize_by_name filename m1 st));
    [now left | now apply Hnext].
Qed.

Lemma organize_overwrites_only_stamped_witness :
  st_fs (organize_loop sample_env false ["notes.txt"] (init collision_tree))
    !! ["Documents"; "Text"; "notes.txt"] = Some (File "old").
Proof.
  destruct (organize_overwrites_only_stamped sample_env false ["notes.txt"]
              (init collision_tree) ["Documents"; "Text"; "notes.txt"] "old")
    as [H | (f & [<- | []] & [Hf | Hf])].
  - vm_compute. reflexivity.
  - exact H.
  - discriminate Hf.
  - exfalso. vm_compute in Hf. discriminate Hf.
Defined.

(** A top-level entry other than the handled file is not touched by the
    folder creation nor by the move. *)
Lemma makedirs_top_same (e : env) (comps : list string) (m m1 : tree)
    (ok : bool) (n : string) :
  makedirs e [] comps m = (m1, ok) -> is_Some (m !! [n]) ->
  m1 !! [n] = m !! [n].
Proof.
  intros Hmk [nd Hnd].
  destruct (makedirs_lookup e comps [] m m1 ok Hmk [n]) as [E | (Hn & _)];
    [exact E | congruence].
Qed.

Lemma move_file_top_same (e : env) (organize_by_name : bool)
    (filename n : string) (m1 : tree) (st : state) :
  n <> filename ->
  st_fs (move_file e organize_by_name filename m1 st) !! [n] = m1 !! [n].
Proof.
  intros Hne.
  destruct (move_file_inv e organize_by_name filename m1 st)
    as (returned & Hmv & _).
  pose proof (target_path_length e organize_by_name m1 filename) as Hl.
  destruct (move_lookup e filename _ m1 _ returned Hl Hmv [n])
    as [[E _] | [(E & _) | ([[E _] | [E _]] & _)]].
  - exact E.
  - congruence.
  - rewrite <- E in Hl. simpl in Hl. lia.
  - apply (f_equal length) in E. rewrite length_app in E. simpl in E. lia.
Qed.

Lemma move_file_event (e : env) (organize_by_name : bool)
    (filename : string) (m1 : tree) (st : state) :
  exists ev, log (move_file e organize_by_name filename m1 st) = log st ++ [ev]
             /\ event_name ev = filename.
Proof.
  destruct (move_file_inv e organize_by_name filename m1 st)
    as (returned & _ & Hlog & _).
  eexists. split; [exact Hlog|]. now destruct returned.
Qed.

Lemma isdir_top (m m' : tree) (n : string) :
  m' !! [n] = m !! [n] -> isdir m' [n] = isdir m [n].
Proof. unfold isdir, stat_node. now intros ->. Qed.

Lemma organize_loop_handles (e : env) (organize_by_name : bool)
    (names : list string) : forall st : state,
  NoDup names ->
  (forall n, In n names -> is_Some (st_fs st !! [n])) ->
  let r := organize_loop e organize_by_name names st in
  let files := List.filter (fun n => negb (isdir (st_fs st) [n])) names in
  exists evs,
    log r = log st ++ evs
    /\ map event_name evs `prefix_of` files
    /\ (aborted r = false -> map event_name evs = files).
Proof.
  induction names as [|filename names IH]; intros st Hnd Hex; simpl.
  - exists []. rewrite app_nil_r.
    split; [reflexivity|]. split; [apply prefix_nil | reflexivity].
  - apply NoDup_cons in Hnd as [Hnotin Hnd].
    assert (forall st',
              (forall n, In n names -> st_fs st' !! [n] = st_fs st !! [n]) ->
              (forall n, In n names -> is_Some (st_fs st' !! [n]))
              /\ List.filter (fun n => negb (isdir (st_fs st') [n])) names
                 = List.filter (fun n => negb (isdir (st_fs st) [n])) names)
      as Hsame.
    { intros st' H. split.
      - intros n Hn. rewrite (H n Hn). apply Hex. now right.
      - apply filter_ext_in. intros n Hn. now rewrite (isdir_top _ _ _ (H n Hn)). }
    destruct (isdir (st_fs st) [filename]) eqn:Hdir; simpl.
    + apply IH; [exact Hnd|]. intros n Hn. apply Hex. now right.
    + destruct (makedirs e [] _ (st_fs st)) as [m1 [|]] eqn:Hmk.
      2:{ exists []. simpl. rewrite app_nil_r.
          split; [reflexivity|]. split; [apply prefix_nil | discriminate]. }
      assert (forall n, In n names -> m1 !! [n] = st_fs st !! [n]) as H1.
      { intros n Hn. apply (makedirs_top_same _ _ _ _ _ _ Hmk).
        apply Hex. now right. }
      destruct (move_file_event e organize_by_name filename m1 st)
        as (ev & Hlog1 & Hname).
      destruct (aborted (move_file e organize_by_name filename m1 st)) eqn:Hab1.
      * exists [ev]. split; [exact Hlog1|]. simpl. rewrite Hname.
        split; [apply prefix_cons, prefix_nil | congruence].
      * destruct (Hsame (move_file e organize_by_name filename m1 st))
          as [Hex' Hf].
        { intros n Hn. rewrite <- (H1 n Hn). apply move_file_top_same.
          intros ->. apply Hnotin. now apply list_elem_of_In. }
        destruct (IH _ Hnd Hex') as (evs & Hlog & Hpre & Heq).
        cbv zeta in Hlog, Hpre, Heq. rewrite Hf in Hpre, Heq.
        exists (ev :: evs). split; [now rewrite Hlog, Hlog1, <- app_assoc|].
        simpl. rewrite Hname. split; [now apply prefix_cons|].
        intros Hab. now rewrite (Heq Hab).
Qed.

(** The lines of the inner [try] that were printed, against the moves:
    the counter is the number of "Moved" lines, and each of them stands
    for a move that returned. *)
Lemma organize_loop_printed (e : env) (organize_by_name : bool)
    (names : list string) : forall st : state,
  let r := organize_loop e organize_by_name names st in
  exists evs pr : list event,
    log r = log st ++ evs
    /\ printed r = printed st ++ pr
    /\ moved_files r = (moved_files st + length (List.filter is_moved pr))%nat
    /\ sublist (List.filter is_moved pr) (List.filter is_moved evs)
    /\ ((forall f, In f names -> print_moved_ok e f = true) ->
        List.filter is_moved pr = List.filter is_moved evs).
Proof.
  cbv zeta. revert names.
  apply (organize_loop_cases e organize_by_name
           (fun names st r =>
              exists evs pr : list event,
                log r = log st ++ evs
                /\ printed r = printed st ++ pr
                /\ moved_files r
                   = (moved_files st + length (List.filter is_moved pr))%nat
                /\ sublist (List.filter is_moved pr) (List.filter is_moved evs)
                /\ ((forall f, In f names -> print_moved_ok e f = true) ->
                    List.filter is_moved pr = List.filter is_moved evs))).
  - intros st. exists [], []. rewrite !app_nil_r. simpl.
    split; [reflexivity|]. split; [reflexivity|]. split; [lia|].
    split; [constructor | reflexivity].
  - intros filename rest st r _ (evs & pr & Hlog & Hpr & Hcnt & Hsub & Heq).
    exists evs, pr. split; [exact Hlog|]. split; [exact Hpr|].
    split; [exact Hcnt|]. split; [exact Hsub|].
    intros Hall. apply Heq. intros f Hf. apply Hall. now right.
  - intros filename rest st m1 _ _. exists [], []. simpl. rewrite !app_nil_r.
    split; [reflexivity|]. split; [reflexivity|]. split; [lia|].
    split; [constructor | reflexivity].
  - intros filename rest st m1 _ _ _.
    destruct (move_file_inv e organize_by_name filename m1 st)
      as (returned & _ & Hlog & [(-> & Hp & Hcnt & Hpr & _) | (Hp & Hcnt & Hpr & _)]).
    + eexists _, _. split; [exact Hlog|]. split; [exact Hpr|]. simpl.
      split; [lia|]. split; [reflexivity | reflexivity].
    + eexists _, _. split; [exact Hlog|]. split; [exact Hpr|].
      assert (List.filter is_moved
                (if print_error_ok e filename then [ErrorMoving filename] else [])
              = []) as -> by now destruct (print_error_ok e filename).
      simpl. split; [lia|]. split; [apply sublist_nil_l|].
      intros Hall. destruct returned; [|reflexivity].
      rewrite (Hall filename) in Hp by now left. now discriminate Hp.
  - intros filename rest st m1 r _ _ _ (evs & pr & Hlog & Hpr & Hcnt & Hsub & Heq).
    destruct (move_file_inv e organize_by_name filename m1 st)
      as (returned & _ & Hlog1
          & [(-> & Hp & Hcnt1 & Hpr1 & _) | (Hp & Hcnt1 & Hpr1 & _)]).
    + eexists (_ :: evs), (_ :: pr).
      split; [rewrite Hlog, Hlog1, <- app_assoc; reflexivity|].
      split; [rewrite Hpr, Hpr1, <- app_assoc; reflexivity|].
      simpl. split; [lia|]. split; [now apply sublist_skip|].
      intros Hall. f_equal. apply Heq. intros f Hf. apply Hall. now right.
    + eexists (_ :: evs), (_ ++ pr).
      split; [rewrite Hlog, Hlog1, <- app_assoc; reflexivity|].
      split; [rewrite Hpr, Hpr1, <- app_assoc; reflexivity|].
      rewrite List.filter_app.
      assert (List.filter is_moved
                (if print_error_ok e filename then [ErrorMoving filename] else [])
              = []) as -> by now destruct (print_error_ok e filename).
      cbn [app]. split; [lia|]. split.
      * simpl. destruct (is_moved _); [now apply sublist_cons | exact Hsub].
      * intros Hall. destruct returned.
        -- rewrite (Hall filename) in Hp by now left. now discriminate Hp.
        -- simpl. apply Heq. intros f Hf. apply Hall. now right.
Qed.

(** X11. The files a run hands to [shutil.move] are the entries of the
    first listing that are not directories, in listing order: always a
    prefix of them, and all of them when the outer handler did not run.
    The returned count is the number of "Moved" lines that were printed;
    each of them stands for a move that returned, so the count is at most
    the number of files moved, and it is that number when every "Moved"
    line can be printed. *)
Theorem organize_handles_files (e : env) (organize_by_name : bool) (m : tree) :
  let r := organize_files e organize_by_name m in
  let files := List.filter (fun n => negb (isdir m [n])) (listdir m) in
  map event_name (log r) `prefix_of` files
  /\ (aborted r = false -> map event_name (log r) = files)
  /\ moved_files r = length (List.filter is_moved (printed r))
  /\ sublist (List.filter is_moved (printed r)) (List.filter is_moved (log r))
  /\ ((forall f, In f (listdir m) -> print_moved_ok e f = true) ->
      moved_files r = length (List.filter is_moved (log r))).
Proof.
  intros r files.
  destruct (organize_loop_handles e organize_by_name (listdir m) (init m)
              (NoDup_listdir m)) as (evs & Hlog & Hpre & Heq).
  { intros n Hn. now apply elem_of_listdir. }
  fold (organize_files e organize_by_name m) in Hlog, Heq. fold r in Hlog, Heq.
  simpl in Hlog, Hpre, Heq. fold files in Hpre, Heq.
  destruct (organize_loop_printed e organize_by_name (listdir m) (init m))
    as (evs' & pr & Hlog' & Hpr & Hcnt & Hsub & Hall).
  fold (organize_files e organize_by_name m) in Hlog', Hpr, Hcnt.
  fold r in Hlog', Hpr, Hcnt. simpl in Hlog', Hpr, Hcnt.
  assert (evs' = evs) as -> by congruence.
  rewrite Hlog, Hpr, Hcnt.
  split; [exact Hpre|]. split; [exact Heq|]. split; [reflexivity|].
  split; [exact Hsub|].
  intros Hok. now rewrite (Hall Hok).
Qed.

Lemma makedirs_blocked (e : env) (c : string) (comps : list string)
    (m : tree) (content : string) :
  m !! [c] = Some (File content) -> makedirs e [] (c :: comps) m = (m, false).
Proof. intros H. simpl. now rewrite H. Qed.

Lemma organize_loop_blocked (e : env) (organize_by_name : bool)
    (filename content : string) (comps names : list string) :
  target_folder organize_by_name filename = filename :: comps ->
  forall st : state,
  In filename names ->
  st_fs st !! [filename] = Some (File content) ->
  let r := organize_loop e organize_by_name names st in
  aborted r = true /\ st_fs r !! [filename] = Some (File content).
Proof.
  intros Htf. induction names as [|n names IH]; intros st Hin Hfile; [destruct Hin|].
  simpl. destruct (decide (n = filename)) as [-> | Hne].
  - assert (isdir (st_fs st) [filename] = false) as ->
      by (unfold isdir, stat_node; now rewrite Hfile).
    rewrite Htf, (makedirs_blocked e filename comps _ content Hfile).
    now split.
  - destruct Hin as [-> | Hin]; [congruence|].
    destruct (isdir (st_fs st) [n]); [now apply IH|].
    destruct (makedirs e [] _ (st_fs st)) as [m1 [|]] eqn:Hmk.
    + pose proof (makedirs_keeps _ _ _ _ _ _ _ _ Hmk Hfile) as H1.
      assert (st_fs (move_file e organize_by_name n m1 st) !! [filename]
              = Some (File content)) as H2
        by (rewrite move_file_top_same by congruence; exact H1).
      destruct (aborted (move_file e organize_by_name n m1 st)) eqn:Hab;
        [now split | now apply IH].
    + simpl. split; [reflexivity|].
      exact (makedirs_keeps _ _ _ _ _ _ _ _ Hmk Hfile).
Qed.

Lemma organize_loop_blocked_no_event (e : env) (organize_by_name : bool)
    (filename content : string) (comps names : list string) :
  target_folder organize_by_name filename = filename :: comps ->
  forall st : state,
  st_fs st !! [filename] = Some (File content) ->
  exists evs,
    log (organize_loop e organize_by_name names st) = log st ++ evs
    /\ forall ev, In ev evs -> event_name ev <> filename.
Proof.
  intros Htf. induction names as [|n names IH]; intros st Hfile; simpl.
  - exists []. rewrite app_nil_r. split; [reflexivity | intros ev []].
  - destruct (decide (n = filename)) as [-> | Hne].
    + assert (isdir (st_fs st) [filename] = false) as ->
        by (unfold isdir, stat_node; now rewrite Hfile).
      rewrite Htf, (makedirs_blocked e filename comps _ content Hfile).
      exists []. simpl. rewrite app_nil_r. split; [reflexivity | intros ev []].
    + destruct (isdir (st_fs st) [n]); [now apply IH|].
      destruct (makedirs e [] _ (st_fs st)) as [m1 [|]] eqn:Hmk.
      * pose proof (makedirs_keeps _ _ _ _ _ _ _ _ Hmk Hfile) as H1.
        destruct (move_file_event e organize_by_name n m1 st)
          as (ev1 & Hlog1 & Hname).
        destruct (aborted (move_file e organize_by_name n m1 st)).
        -- exists [ev1]. split; [exact Hlog1|].
           intros ev [<- | []]. congruence.
        -- destruct (IH (move_file e organize_by_name n m1 st))
             as (evs & Hlog & Hno).
           { rewrite move_file_top_same by congruence. exact H1. }
           exists (ev1 :: evs).
           split; [now rewrite Hlog, Hlog1, <- app_assoc|].
           intros ev [<- | Hev]; [congruence | now apply Hno].
      * exists []. simpl. rewrite app_nil_r.
        split; [reflexivity | intros ev []].
Qed.

(** X12. A regular file at the top whose name is the first folder of its
    own category (a file called [Other] without extension, for one) ends
    every run early: the folder cannot be created, the outer handler runs,
    and the file is still in place. *)
Theorem organize_blocked_by_own_folder
    (e : env) (organize_by_name : bool) (m : tree)
    (filename content : string) (comps : list string) :
  m !! [filename] = Some (File content) ->
  target_folder organize_by_name filename = filename :: comps ->
  let r := organize_files e organize_by_name m in
  aborted r = true
  /\ st_fs r !! [filename] = Some (File content)
  /\ (moved_files r < length (List.filter (fun n => negb (isdir m [n])) (listdir m)))%nat.
Proof.
  intros Hfile Htf r.
  destruct (organize_loop_blocked e organize_by_name filename content comps
              (listdir m) Htf (init m)) as [Hab Hstay].
  { apply elem_of_listdir. eauto. }
  { exact Hfile. }
  fold (organize_files e organize_by_name m) in Hab, Hstay. fold r in Hab, Hstay.
  split; [exact Hab|]. split; [exact Hstay|].
  destruct (organize_loop_handles e organize_by_name (listdir m) (init m)
              (NoDup_listdir m)) as (evs & Hlog & Hpre & _).
  { intros n Hn. now apply elem_of_listdir. }
  destruct (organize_loop_inv e organize_by_name (listdir m) (init m))
    as (evs' & Hlog' & _ & Hcnt & _ & Htop).
  fold (organize_files e organize_by_name m) in Hlog, Hlog', Hcnt, Htop.
  fold r in Hlog, Hlog', Hcnt, Htop. simpl in Hlog, Hlog', Hcnt, Hpre, Htop.
  assert (evs' = evs) as -> by congruence.
  set (files := List.filter (fun n => negb (isdir m [n])) (listdir m)) in *.
  (* the blocked file is one of the files and has no event *)
  assert (In filename files) as Hinf.
  { unfold files. apply filter_In. split; [apply elem_of_listdir; eauto|].
    unfold isdir, stat_node. now rewrite Hfile. }
  assert (~ In filename (map event_name evs)) as Hnoev.
  { intros Hin. apply in_map_iff in Hin as (ev & Hname & Hev).
    destruct (organize_loop_blocked_no_event e organize_by_name filename content
                comps (listdir m) Htf (init m) Hfile) as (evs2 & Hlog2 & Hno).
    fold (organize_files e organize_by_name m) in Hlog2. fold r in Hlog2.
    simpl in Hlog2. assert (evs2 = evs) as -> by congruence.
    apply (Hno ev Hev Hname). }
  destruct Hpre as [k Hk].
  pose proof (filter_moved_length evs) as Hle.
  assert (k <> []) as Hkne.
  { intros ->. rewrite app_nil_r in Hk. rewrite Hk in Hinf. contradiction. }
  rewrite Hk, length_app, length_map. destruct k; [congruence | simpl; lia].
Qed.

Lemma organize_blocked_by_own_folder_witness :
  let r := organize_files sample_env false blocked_tree in
  aborted r = true /\ st_fs r !! ["Other"] = Some (File "o").
Proof.
  intros r.
  destruct (organize_blocked_by_own_folder sample_env false blocked_tree
              "Other" "o" ["No_Extension"]) as (Hab & Hstay & _).
  - vm_compute. reflexivity.
  - vm_compute. reflexivity.
  - split; [exact Hab | exact Hstay].
Defined.

(** X13. A regular file that meets no collision and whose move returns
    lands at [folder/filename] with its content and leaves the top level;
    every other entry that was there stays as it was, and besides the file
    only the folders created for it are new.  When the "Moved" line can be
    printed it is printed and the count grows by one; when that [print]
    raises, the file is moved all the same and the count stays: the
    handler prints the error line or, if that raises too, the run ends. *)
Theorem organize_plain_move
    (e : env) (organize_by_name : bool) (filename content : string)
    (st : state) (m1 : tree) :
  let folder := target_folder organize_by_name filename in
  st_fs st !! [filename] = Some (File content) ->
  makedirs e [] folder (st_fs st) = (m1, true) ->
  path_exists m1 (folder ++ [filename]) = false ->
  move_ok e filename = true ->
  let r := organize_loop e organize_by_name [filename] st in
  let moved := Moved filename (classify organize_by_name filename)
                 (folder ++ [filename]) in
  st_fs r !! (folder ++ [filename]) = Some (File content)
  /\ st_fs r !! [filename] = None
  /\ log r = log st ++ [moved]
  /\ (forall p nd, p <> [filename] -> st_fs st !! p = Some nd ->
                   st_fs r !! p = Some nd)
  /\ (forall p, p <> folder ++ [filename] -> st_fs st !! p = None ->
                st_fs r !! p = None
                \/ (st_fs r !! p = Some Dir
                    /\ exists k, (0 < k <= length folder)%nat /\ p = take k folder))
  /\ (if print_moved_ok e filename
      then moved_files r = S (moved_files st)
           /\ printed r = printed st ++ [moved]
           /\ aborted r = false
      else moved_files r = moved_files st
           /\ printed r = printed st ++ (if print_error_ok e filename
                                         then [ErrorMoving filename] else [])
           /\ aborted r = negb (print_error_ok e filename)).
Proof.
  intros folder Hfile Hmk Hfree Hok r moved.
  assert (isdir (st_fs st) [filename] = false) as Hnodir
    by (unfold isdir, stat_node; now rewrite Hfile).
  assert (folder <> []) as Hne by apply target_folder_nonempty.
  assert (target_path e organize_by_name m1 filename = folder ++ [filename]) as Htp.
  { unfold target_path. fold folder. now rewrite Hfree. }
  assert (m1 !! (folder ++ [filename]) = None) as Hnone
    by now apply path_exists_false.
  assert (isdir m1 (folder ++ [filename]) = false) as Hnd.
  { unfold isdir, stat_node.
    destruct (folder ++ [filename]) eqn:El; [now destruct folder|].
    now rewrite Hnone. }
  assert (folder ++ [filename] <> [filename]) as Hdiff.
  { intros E. apply (f_equal length) in E. rewrite length_app in E.
    destruct folder; [congruence | simpl in E; lia]. }
  assert (move e filename (folder ++ [filename]) m1
          = (true, <[folder ++ [filename] := File content]> (delete [filename] m1)))
    as Hmv.
  { unfold move. rewrite (makedirs_keeps _ _ _ _ _ _ _ _ Hmk Hfile), Hnd, Hok.
    reflexivity. }
  assert (r = move_file e organize_by_name filename m1 st) as Hr.
  { subst r. simpl. rewrite Hnodir. fold folder. rewrite Hmk.
    now destruct (aborted _). }
  destruct (move_file_inv e organize_by_name filename m1 st)
    as (returned & Hmv' & Hlog & Hcnt).
  rewrite <- Hr in Hmv', Hlog, Hcnt. rewrite Htp in Hmv', Hlog, Hcnt.
  fold moved in Hlog, Hcnt. clearbody r.
  rewrite Hmv in Hmv'. injection Hmv' as <- Hfs. rewrite <- Hfs.
  split; [apply lookup_insert_eq|].
  split; [rewrite lookup_insert_ne by congruence; apply lookup_delete_eq|].
  split; [exact Hlog|].
  split.
  { intros p nd Hp Hst.
    pose proof (makedirs_keeps _ _ _ _ _ _ _ _ Hmk Hst) as H1.
    rewrite lookup_insert_ne by congruence.
    now rewrite lookup_delete_ne by congruence. }
  split.
  { intros p Hp Hst. rewrite lookup_insert_ne by congruence.
    destruct (decide (p = [filename])) as [-> | Hpf].
    { left. apply lookup_delete_eq. }
    rewrite lookup_delete_ne by congruence.
    destruct (makedirs_lookup e folder [] _ _ _ Hmk p)
      as [E | (_ & Hd & k & Hk & ->)].
    + left. now rewrite E.
    + right. split; [exact Hd|]. exists k. split; [exact Hk | reflexivity]. }
  destruct Hcnt as [(_ & -> & Hc & Hp & Ha) | (Hpm & Hc & Hp & Ha)].
  - now split.
  - rewrite (Hpm eq_refl). now split.
Qed.

Lemma organize_plain_move_witness :
  let st := init sample_tree in
  let folder := target_folder false "script.py" in
  let r := organize_loop sample_env false ["script.py"] st in
  st_fs r !! (folder ++ ["script.py"]) = Some (File "py")
  /\ st_fs r !! ["script.py"] = None
  /\ st_fs r !! ["Programming"; "Python"; "script.py"] = Some (File "py").
Proof.
  intros st folder r.
  pose (m1 := fst (makedirs sample_env [] folder (st_fs st))).
  assert (st_fs st !! ["script.py"] = Some (File "py")) as H1
    by (vm_compute; reflexivity).
  assert (makedirs sample_env [] folder (st_fs st) = (m1, true)) as H2
    by (apply pair_true; vm_compute; reflexivity).
  assert (path_exists m1 (folder ++ ["script.py"]) = false) as H3
    by (vm_compute; reflexivity).
  assert (move_ok sample_env "script.py" = true) as H4 by reflexivity.
  pose proof (organize_plain_move sample_env false "script.py" "py" st m1
                H1 H2 H3 H4) as W.
  destruct W as (Ha & Hb & _).
  split; [exact Ha|]. split; [exact Hb|]. vm_compute. reflexivity.
Defined.

Lemma move_refused (e : env) (filename : string) (dst : list string) (m : tree) :
  move_ok e filename = false -> move_leaves e filename = None ->
  move e filename dst m = (false, m).
Proof.
  intros Hok Hl. unfold move. destruct (m !! [filename]); [|reflexivity].
  destruct (isdir m dst && _); [reflexivity|]. now rewrite Hok, Hl.
Qed.

(** X19. A move that raises, when its error line can be printed, does not
    stop the run: the loop goes on with the files that follow, from a
    state with the same count, the failure recorded and the line printed.
    The file is still at the top level; the only entry that may differ is
    the place the move was writing to, which then holds a regular file
    (the copy it left). *)
Theorem organize_continues_after_failed_move
    (e : env) (organize_by_name : bool) (filename : string)
    (rest : list string) (st : state) (m1 m2 : tree) :
  isdir (st_fs st) [filename] = false ->
  makedirs e [] (target_folder organize_by_name filename) (st_fs st)
  = (m1, true) ->
  move e filename (target_path e organize_by_name m1 filename) m1 = (false, m2) ->
  print_error_ok e filename = true ->
  organize_loop e organize_by_name (filename :: rest) st
  = organize_loop e organize_by_name rest
      {| st_fs := m2; moved_files := moved_files st;
         log := log st ++ [ErrorMoving filename];
         printed := printed st ++ [ErrorMoving filename];
         aborted := false |}
  /\ m2 !! [filename] = m1 !! [filename]
  /\ (forall p : list string,
        m2 !! p = m1 !! p
        \/ ((p = target_path e organize_by_name m1 filename
             \/ p = target_path e organize_by_name m1 filename ++ [filename])
            /\ exists content, m2 !! p = Some (File content))).
Proof.
  intros Hd Hmk Hmv Hp.
  pose proof (target_path_length e organize_by_name m1 filename) as Hlen.
  split; [|split].
  - simpl. rewrite Hd, Hmk. unfold move_file, handle_error.
    rewrite Hmv, Hp. reflexivity.
  - destruct (move_lookup e filename _ m1 m2 false Hlen Hmv [filename])
      as [[E _] | [(_ & Hf & _) | ([[E _] | [E _]] & _)]].
    + exact E.
    + discriminate Hf.
    + rewrite <- E in Hlen. simpl in Hlen. lia.
    + apply (f_equal length) in E. rewrite length_app in E. simpl in E. lia.
  - intros p.
    destruct (move_lookup e filename _ m1 m2 false Hlen Hmv p)
      as [[E _] | [(_ & Hf & _) | (Hwhere & [[Hf _] | [_ Hc]])]].
    + now left.
    + discriminate Hf.
    + discriminate Hf.
    + right. split; [|exact Hc].
      destruct Hwhere as [[-> _] | [-> _]]; [now left | now right].
Qed.

Lemma organize_continues_after_failed_move_witness :
  let st := init sample_tree in
  let m1 := fst (makedirs locked_env [] (target_folder false "script.py")
                   (st_fs st)) in
  organize_loop locked_env false ("script.py" :: ["unknown.xyz"]) st
  = organize_loop locked_env false ["unknown.xyz"]
      {| st_fs := m1; moved_files := moved_files st;
         log := log st ++ [ErrorMoving "script.py"];
         printed := printed st ++ [ErrorMoving "script.py"];
         aborted := false |}.
Proof.
  intros st m1.
  assert (isdir (st_fs st) ["script.py"] = false) as H1
    by (vm_compute; reflexivity).
  assert (makedirs locked_env [] (target_folder false "script.py") (st_fs st)
          = (m1, true)) as H2 by (apply pair_true; vm_compute; reflexivity).
  assert (move locked_env "script.py"
            (target_path locked_env false m1 "script.py") m1 = (false, m1)) as H3
    by (apply move_refused; reflexivity).
  assert (print_error_ok locked_env "script.py" = true) as H4 by reflexivity.
  exact (proj1 (organize_continues_after_failed_move locked_env false
                  "script.py" ["unknown.xyz"] st m1 m1 H1 H2 H3 H4)).
Defined.

(* ===================================================================== *)
(** * Classification and letter case, for characters below U+0100 *)
(* ===================================================================== *)

Ltac by_all_chars c :=
  destruct c as [[] [] [] [] [] [] [] []]; vm_compute; reflexivity.

Lemma lower_char_idem (c : ascii) :
  Str.lower_char (Str.lower_char c) = Str.lower_char c.
Proof. by_all_chars c. Qed.

Lemma is_digit_lower (c : ascii) :
  Re.is_digit (Str.lower_char c) = Re.is_digit c.
Proof. by_all_chars c. Qed.

Lemma eqb_dot_lower (c : ascii) :
  Ascii.eqb (Str.lower_char c) "." = Ascii.eqb c ".".
Proof. by_all_chars c. Qed.

Lemma eqb_sep_lower (c : ascii) :
  Ascii.eqb (Str.lower_char c) "/" = Ascii.eqb c "/".
Proof. by_all_chars c. Qed.

Lemma lower_idem (s : string) : Str.lower (Str.lower s) = Str.lower s.
Proof.
  induction s as [|c s IH]; simpl; [reflexivity|].
  now rewrite lower_char_idem, IH.
Qed.

Lemma matches_ext (r : regex) : forall (s : string) (k1 k2 : string -> bool),
  (forall t, k1 t = k2 t) -> Re.matches r s k1 = Re.matches r s k2.
Proof.
  induction r as [|p|ranges| |r1 IH1 r2 IH2|r1 IH1 r2 IH2|r1 IH1];
    intros s k1 k2 H; simpl.
  - apply H.
  - destruct s; [reflexivity | now rewrite H].
  - destruct s; [reflexivity | now rewrite H].
  - destruct s; [reflexivity | now rewrite H].
  - apply IH1. intros t. now apply IH2.
  - now rewrite (IH1 s k1 k2 H), (IH2 s k1 k2 H).
  - now rewrite (IH1 s k1 k2 H), H.
Qed.

Lemma matches_lower (r : regex) : forall (s : string) (k : string -> bool),
  Re.matches r (Str.lower s) k = Re.matches r s (fun t => k (Str.lower t)).
Proof.
  induction r as [|p|ranges| |r1 IH1 r2 IH2|r1 IH1 r2 IH2|r1 IH1];
    intros s k; simpl.
  - reflexivity.
  - destruct s as [|c s]; simpl; [reflexivity|].
    unfold Re.lit_ok. now rewrite lower_char_idem.
  - destruct s as [|c s]; simpl; [reflexivity|].
    unfold Re.cls_ok. now rewrite lower_char_idem.
  - destruct s as [|c s]; simpl; [reflexivity|].
    now rewrite is_digit_lower.
  - rewrite IH1. apply matches_ext. intros t. apply IH2.
  - now rewrite IH1, IH2.
  - now rewrite IH1.
Qed.

Lemma search_lower (r : regex) (s : string) :
  Re.search r (Str.lower s) = Re.search r s.
Proof.
  induction s as [|c s IH].
  - reflexivity.
  - change (Str.lower (String c s)) with (String (Str.lower_char c) (Str.lower s)).
    cbn [Re.search]. rewrite IH. f_equal.
    change (String (Str.lower_char c) (Str.lower s)) with (Str.lower (String c s)).
    now rewrite matches_lower.
Qed.

Lemma name_match_lower (pats : list (regex * string)) (filename : string) :
  name_match pats (Str.lower filename) = name_match pats filename.
Proof.
  induction pats as [|[p f] pats IH]; simpl; [reflexivity|].
  now rewrite search_lower, IH.
Qed.

Lemma rfind_from_lower (c : ascii) (s : string) :
  (forall d, Ascii.eqb (Str.lower_char d) c = Ascii.eqb d c) ->
  forall i found,
  Str.rfind_from c (Str.lower s) i found = Str.rfind_from c s i found.
Proof.
  intros Hc. induction s as [|d s IH]; intros i found; simpl; [reflexivity|].
  now rewrite Hc, IH.
Qed.

Lemma drop_lower (n : nat) (s : string) :
  Str.drop n (Str.lower s) = Str.lower (Str.drop n s).
Proof.
  revert s. induction n as [|n IH]; intros [|c s]; simpl; try reflexivity.
  apply IH.
Qed.

Lemma take_lower (n : nat) (s : string) :
  Str.take n (Str.lower s) = Str.lower (Str.take n s).
Proof.
  revert s. induction n as [|n IH]; intros [|c s]; simpl; try reflexivity.
  now rewrite IH.
Qed.

Lemma has_non_dot_lower (n : nat) (p : string) :
  has_non_dot (Str.lower p) n = has_non_dot p n.
Proof.
  revert p. induction n as [|n IH]; intros [|c p]; simpl; try reflexivity.
  now rewrite eqb_dot_lower, IH.
Qed.

Lemma splitext_lower (p : string) :
  splitext (Str.lower p)
  = (Str.lower (fst (splitext p)), Str.lower (snd (splitext p))).
Proof.
  unfold splitext, Str.rfind.
  rewrite !(rfind_from_lower _ _ eqb_dot_lower),
          !(rfind_from_lower _ _ eqb_sep_lower).
  rewrite drop_lower, has_non_dot_lower.
  destruct (_ && _); simpl; [|reflexivity].
  now rewrite take_lower, drop_lower.
Qed.

(** X14. For a filename written with characters below U+0100 (the
    strings of this development) the folder does not depend on the case of
    the letters: the filename and its lower-cased form are classified
    alike, with or without name matching.  Nothing is said of other
    characters; U+0130, for one, is matched as an [i] by [re.IGNORECASE]
    and lower-cased to two characters. *)
Theorem classify_ignores_case_latin1
    (organize_by_name : bool) (filename : string) :
  classify organize_by_name (Str.lower filename)
  = classify organize_by_name filename.
Proof.
  unfold classify, classify_with.
  rewrite splitext_lower, name_match_lower. cbn [snd].
  now rewrite lower_idem.
Qed.

(* ===================================================================== *)
(** * Collisions: the time-stamped name *)
(* ===================================================================== *)

(** X15. The time-stamped name is not checked: when a regular file
    already sits at [folder/name_stamp.ext], a colliding file whose move
    returns replaces it; the old content of that path is gone, while the
    entry at [folder/filename] is kept.  The move is recorded, and it is
    counted when its "Moved" line can be printed. *)
Theorem organize_stamped_name_replaced
    (e : env) (organize_by_name : bool) (filename content old : string)
    (st : state) (m1 : tree) :
  let folder := target_folder organize_by_name filename in
  let stamped := folder ++ [new_filename e filename] in
  st_fs st !! [filename] = Some (File content) ->
  makedirs e [] folder (st_fs st) = (m1, true) ->
  path_exists m1 (folder ++ [filename]) = true ->
  st_fs st !! stamped = Some (File old) ->
  move_ok e filename = true ->
  let r := organize_loop e organize_by_name [filename] st in
  st_fs r !! stamped = Some (File content)
  /\ st_fs r !! [filename] = None
  /\ st_fs r !! (folder ++ [filename]) = st_fs st !! (folder ++ [filename])
  /\ log r = log st ++ [Moved filename (classify organize_by_name filename)
                          stamped]
  /\ moved_files r = (if print_moved_ok e filename
                      then S (moved_files st) else moved_files st).
Proof.
  intros folder stamped Hfile Hmk Hex Hold Hok r.
  assert (isdir (st_fs st) [filename] = false) as Hnodir
    by (unfold isdir, stat_node; now rewrite Hfile).
  assert (folder <> []) as Hne by apply target_folder_nonempty.
  assert (target_path e organize_by_name m1 filename = stamped) as Htp.
  { unfold target_path. fold folder. now rewrite Hex. }
  pose proof (makedirs_keeps _ _ _ _ _ _ _ _ Hmk Hold) as Hold1.
  assert (isdir m1 stamped = false) as Hnd.
  { unfold isdir, stat_node. destruct stamped eqn:El; [now destruct folder|].
    now rewrite Hold1. }
  assert (stamped <> [filename]) as Hdiff.
  { unfold stamped. intros E. apply (f_equal length) in E. rewrite length_app in E.
    destruct folder; [congruence | simpl in E; lia]. }
  assert (folder ++ [filename] <> stamped) as Hdiff2.
  { unfold stamped. intros E. apply app_inv_head in E. injection E as E.
    symmetry in E. now apply new_filename_fresh in E. }
  assert (folder ++ [filename] <> [filename]) as Hdiff3.
  { intros E. apply (f_equal length) in E. rewrite length_app in E.
    destruct folder; [congruence | simpl in E; lia]. }
  assert (move e filename stamped m1
          = (true, <[stamped := File content]> (delete [filename] m1))) as Hmv.
  { unfold move. rewrite (makedirs_keeps _ _ _ _ _ _ _ _ Hmk Hfile), Hnd, Hok.
    reflexivity. }
  assert (r = move_file e organize_by_name filename m1 st) as Hr.
  { subst r. simpl. rewrite Hnodir. fold folder. rewrite Hmk.
    now destruct (aborted _). }
  destruct (move_file_inv e organize_by_name filename m1 st)
    as (returned & Hmv' & Hlog & Hcnt).
  rewrite <- Hr in Hmv', Hlog, Hcnt. rewrite Htp in Hmv', Hlog, Hcnt.
  clearbody r.
  rewrite Hmv in Hmv'. injection Hmv' as <- Hfs. rewrite <- Hfs.
  split; [apply lookup_insert_eq|].
  split; [rewrite lookup_insert_ne by congruence; apply lookup_delete_eq|].
  split.
  { rewrite lookup_insert_ne by congruence.
    rewrite lookup_delete_ne by congruence.
    apply (makedirs_below e folder _ _ _ filename Hmk). }
  split; [exact Hlog|].
  destruct Hcnt as [(_ & -> & Hc & _) | (Hpm & Hc & _)]; [exact Hc|].
  now rewrite (Hpm eq_refl).
Qed.

Lemma organize_stamped_name_replaced_witness :
  let st := init crowded_tree in
  let folder := target_folder false "notes.txt" in
  let r := organize_loop sample_env false ["notes.txt"] st in
  st_fs r !! (folder ++ [new_filename sample_env "notes.txt"]) = Some (File "new")
  /\ st_fs st !! ["Documents"; "Text"; "notes_20240309_070500.txt"]
     = Some (File "older")
  /\ st_fs r !! ["Documents"; "Text"; "notes_20240309_070500.txt"]
     = Some (File "new").
Proof.
  intros st folder r.
  pose (m1 := fst (makedirs sample_env [] folder (st_fs st))).
  assert (st_fs st !! ["notes.txt"] = Some (File "new")) as H1
    by (vm_compute; reflexivity).
  assert (makedirs sample_env [] folder (st_fs st) = (m1, true)) as H2
    by (apply pair_true; vm_compute; reflexivity).
  assert (path_exists m1 (folder ++ ["notes.txt"]) = true) as H3
    by (vm_compute; reflexivity).
  assert (st_fs st !! (folder ++ [new_filename sample_env "notes.txt"])
          = Some (File "older")) as H4 by (vm_compute; reflexivity).
  assert (move_ok sample_env "notes.txt" = true) as H5 by reflexivity.
  pose proof (organize_stamped_name_replaced sample_env false "notes.txt" "new"
                "older" st m1 H1 H2 H3 H4 H5) as W.
  destruct W as (Ha & _).
  split; [exact Ha|]. split; vm_compute; reflexivity.
Defined.

Lemma rfind_from_rlast (c : ascii) (s : string) : forall i found,
  Str.rfind_from c s i found
  = match rlast c s with
    | Some k => i + Z.of_nat k
    | None => found
    end.
Proof.
  induction s as [|d s IH]; intros i found; simpl; [reflexivity|].
  rewrite IH. destruct (rlast c s) as [k|]; [lia|].
  destruct (Ascii.eqb d c); [lia | reflexivity].
Qed.

Lemma rlast_app (c : ascii) (a b : string) :
  rlast c (a +:+ b)
  = match rlast c b with
    | Some k => Some (String.length a + k)%nat
    | None => rlast c a
    end.
Proof.
  induction a as [|d a IH]; simpl.
  - now destruct (rlast c b).
  - rewrite IH. now destruct (rlast c b).
Qed.

Lemma rlast_split (c : ascii) (s : string) (k : nat) :
  rlast c s = Some k ->
  exists rest,
    Str.drop k s = String c rest /\ rlast c rest = None
    /\ String.length (Str.take k s) = k.
Proof.
  revert k. induction s as [|d s IH]; intros k; simpl; [discriminate|].
  destruct (rlast c s) as [j|] eqn:E.
  - intros [= <-]. destruct (IH j eq_refl) as (rest & Hd & Hn & Hl).
    exists rest. simpl. now rewrite Hl.
  - destruct (Ascii.eqb_spec d c) as [-> | _]; [|discriminate].
    intros [= <-]. now exists s.
Qed.

Lemma has_non_dot_take (p : string) (k : nat) :
  has_non_dot (Str.take k p) k = has_non_dot p k.
Proof.
  revert p. induction k as [|k IH]; intros [|c p]; simpl; try reflexivity.
  now rewrite IH.
Qed.

Lemma has_non_dot_more (a b : string) (j : nat) :
  has_non_dot a (String.length a) = true ->
  has_non_dot (a +:+ b) (String.length a + j) = true.
Proof.
  induction a as [|c a IH]; simpl; [discriminate|].
  destruct (negb (Ascii.eqb c ".")); simpl; [reflexivity | exact IH].
Qed.

Lemma has_non_dot_prefix (a b : string) (k : nat) :
  (k <= String.length a)%nat -> has_non_dot (a +:+ b) k = has_non_dot a k.
Proof.
  revert k. induction a as [|c a IH]; intros k Hk; simpl in *.
  - assert (k = 0%nat) as -> by lia. now destruct b.
  - destruct k as [|k]; [reflexivity|]. simpl. rewrite IH by lia. reflexivity.
Qed.

Lemma take_app_length (a b : string) : Str.take (String.length a) (a +:+ b) = a.
Proof. induction a as [|c a IH]; simpl; [now destruct b | now rewrite IH]. Qed.

Lemma drop_app_length (a b : string) : Str.drop (String.length a) (a +:+ b) = b.
Proof. induction a as [|c a IH]; simpl; [reflexivity | exact IH]. Qed.

Lemma rlast_lt (c : ascii) (s : string) (k : nat) :
  rlast c s = Some k -> (k < String.length s)%nat.
Proof.
  revert k. induction s as [|d s IH]; intros k; simpl; [discriminate|].
  destruct (rlast c s) as [j|].
  - intros [= <-]. specialize (IH j eq_refl). lia.
  - destruct (Ascii.eqb d c); [intros [= <-]; lia | discriminate].
Qed.

(** [splitext] on a name without separator. *)
Lemma splitext_nosep (p : string) :
  rlast "/" p = None ->
  splitext p
  = match rlast "." p with
    | Some k => if has_non_dot p k then (Str.take k p, Str.drop k p)
                else (p, EmptyString)
    | None => (p, EmptyString)
    end.
Proof.
  intros Hsep. unfold splitext, Str.rfind. rewrite !rfind_from_rlast, Hsep.
  destruct (rlast "." p) as [k|]; simpl.
  - replace (-1 <? 0 + Z.of_nat k) with true by (symmetry; apply Z.ltb_lt; lia).
    replace (Z.to_nat (0 + Z.of_nat k - (-1 + 1))) with k by lia.
    replace (Z.to_nat (0 + Z.of_nat k)) with k by lia.
    reflexivity.
  - reflexivity.
Qed.

Lemma digit_not_char (c : ascii) :
  Re.is_digit c = true -> Ascii.eqb c "." = false /\ Ascii.eqb c "/" = false.
Proof.
  destruct c as [[] [] [] [] [] [] [] []]; vm_compute; intros H;
    try discriminate H; split; reflexivity.
Qed.

Lemma rlast_digits (s : string) :
  all_digits s = true -> rlast "." s = None /\ rlast "/" s = None.
Proof.
  induction s as [|c s IH]; simpl; [now split|].
  intros H. apply andb_true_iff in H as [Hc Hs].
  destruct (IH Hs) as [-> ->]. destruct (digit_not_char c Hc) as [-> ->].
  now split.
Qed.

Lemma rlast_strftime (t : struct_time) :
  rlast "." (strftime t) = None /\ rlast "/" (strftime t) = None.
Proof.
  unfold strftime.
  destruct (rlast_digits _ (proj2 (date_digits_ok t))) as [Hd1 Hd2].
  destruct (rlast_digits _ (proj2 (time_digits_ok t))) as [Ht1 Ht2].
  rewrite !rlast_app, Hd1, Hd2, Ht1, Ht2. now split.
Qed.

Lemma length_strftime (t : struct_time) : String.length (strftime t) = 16%nat.
Proof.
  unfold strftime. rewrite !length_app_str.
  rewrite (proj1 (date_digits_ok t)), (proj1 (time_digits_ok t)). reflexivity.
Qed.

Lemma rlast_none_contains (c : ascii) (s : string) :
  Str.contains (String c EmptyString) s = false -> rlast c s = None.
Proof.
  induction s as [|d s IH]; simpl; [reflexivity|].
  intros H. apply orb_false_iff in H as [H1 H2].
  rewrite (IH H2).
  rewrite ?andb_true_r in H1.
  rewrite Ascii.eqb_sym. now rewrite H1.
Qed.

Lemma splitext_stamped (f ts : string) :
  rlast "/" f = None -> rlast "." ts = None -> rlast "/" ts = None ->
  splitext (fst (splitext f) +:+ ts +:+ snd (splitext f))
  = (fst (splitext f) +:+ ts, snd (splitext f)).
Proof.
  intros Hsep Hd Hs. rewrite (splitext_nosep f Hsep).
  destruct (rlast "." f) as [k|] eqn:Ek.
  - destruct (has_non_dot f k) eqn:Hnd; cbn [fst snd].
    + destruct (rlast_split "." f k Ek) as (rest & Hdrop & Hrest & Hlen).
      pose proof (take_drop_str k f) as Hf.
      set (name := Str.take k f) in *. set (ext := Str.drop k f) in *.
      assert (rlast "/" ext = None /\ rlast "/" name = None) as [Hse Hsn].
      { rewrite <- Hf, rlast_app in Hsep.
        destruct (rlast "/" ext); [discriminate | now split]. }
      assert (rlast "." ext = Some 0%nat) as Hde.
      { rewrite Hdrop. simpl. now rewrite Hrest. }
      rewrite splitext_nosep by (now rewrite !rlast_app, Hse, Hs).
      rewrite !rlast_app, Hde.
      assert (has_non_dot name (String.length name) = true) as Hn.
      { rewrite Hlen. unfold name. now rewrite has_non_dot_take. }
      rewrite (has_non_dot_more name (ts +:+ ext) _ Hn).
      replace (String.length name + (String.length ts + 0))%nat
        with (String.length (name +:+ ts)) by (rewrite length_app_str; lia).
      rewrite <- app_assoc_str.
      now rewrite take_app_length, drop_app_length.
    + rewrite app_nil_r_str.
      rewrite splitext_nosep by (now rewrite rlast_app, Hs).
      rewrite rlast_app, Hd, Ek.
      rewrite has_non_dot_prefix by (apply rlast_lt in Ek; lia).
      now rewrite Hnd.
  - cbn [fst snd]. rewrite app_nil_r_str.
    rewrite splitext_nosep by (now rewrite rlast_app, Hs).
    now rewrite rlast_app, Hd, Ek.
Qed.

(** X16. The time-stamped name keeps the extension: for a filename
    without separator, splitting the stamped name gives the old base name
    followed by the stamp, and the old extension; so the stamped file
    belongs to the same extension folder. *)
Theorem stamped_name_keeps_extension (e : env) (filename : string) :
  Str.contains "/" filename = false ->
  splitext (new_filename e filename)
  = (fst (splitext filename) +:+ strftime (localtime e filename),
     snd (splitext filename))
  /\ classify false (new_filename e filename) = classify false filename.
Proof.
  intros Hsep. apply rlast_none_contains in Hsep.
  destruct (rlast_strftime (localtime e filename)) as [Hd Hs].
  assert (new_filename e filename
          = fst (splitext filename) +:+ strftime (localtime e filename)
              +:+ snd (splitext filename)) as Hnew.
  { unfold new_filename. now destruct (splitext filename). }
  pose proof (splitext_stamped filename _ Hsep Hd Hs) as Hsplit.
  rewrite <- Hnew in Hsplit.
  split; [exact Hsplit|].
  unfold classify, classify_with. now rewrite Hsplit.
Qed.

Lemma stamped_name_keeps_extension_witness :
  splitext (new_filename sample_env "notes.tar.GZ")
  = ("notes.tar_20240309_070500", ".GZ")
  /\ classify false (new_filename sample_env "notes.tar.GZ") = "Archives/GZ".
Proof.
  destruct (stamped_name_keeps_extension sample_env "notes.tar.GZ") as [H1 H2].
  - vm_compute. reflexivity.
  - split; [exact H1 | exact H2].
Defined.

(* ===================================================================== *)
(** * The report: order of equal sizes, printed paths *)
(* ===================================================================== *)

Lemma insert_desc_stable {A : Type} (key : A -> Z) (z : Z) (x : A) (l : list A) :
  List.filter (fun a => key a =? z) (insert_desc key x l)
  = List.filter (fun a => key a =? z) (x :: l).
Proof.
  induction l as [|y l IH]; [reflexivity|].
  cbn [insert_desc]. destruct (key x <? key y) eqn:E; [|reflexivity].
  apply Z.ltb_lt in E. cbn [List.filter] in *. rewrite IH.
  destruct (key y =? z) eqn:Ey; [|reflexivity].
  apply Z.eqb_eq in Ey.
  now replace (key x =? z) with false by (symmetry; apply Z.eqb_neq; lia).
Qed.

Lemma sort_desc_stable {A : Type} (key : A -> Z) (z : Z) (l : list A) :
  List.filter (fun a => key a =? z) (sort_desc key l)
  = List.filter (fun a => key a =? z) l.
Proof.
  unfold sort_desc. induction l as [|x l IH]; [reflexivity|].
  cbn [foldr]. rewrite insert_desc_stable. cbn [List.filter]. now rewrite IH.
Qed.

(** X17. Sorting by size is stable: within a section, the files of one
    and the same size stand in the order in which the walk listed them. *)
Theorem report_sections_stable
    (re : report_env) (report_filename : string)
    (walk : list (string * list string)) (sec : section) :
  In sec (sections (walk_loop re report_filename walk)) ->
  exists root files,
    In (root, files) walk
    /\ sec_rel_path sec = display_path root
    /\ forall size,
         List.filter (fun d => detail_size d =? size) (sec_entries sec)
         = List.filter (fun d => detail_size d =? size)
             (map (detail_entry re root) (listed report_filename files)).
Proof.
  intros Hin. unfold walk_loop in Hin.
  apply walk_sections_from in Hin
    as [[] | (root & files & Hw & _ & Hp & _ & He & _)].
  exists root, files. split; [exact Hw|]. split; [exact Hp|].
  intros size. rewrite He. apply sort_desc_stable.
Qed.

Lemma report_sections_stable_witness :
  let sec :=
    {| sec_rel_path := display_path "docs";
       sec_count := 3;
       sec_entries :=
         sort_desc detail_size
           (map (detail_entry (aged_env 7 1) "docs") ["b"; "a"; "c"]);
       sec_size := directory_size
         (files_loop (aged_env 7 1) "docs" (display_path "docs")
            ["b"; "a"; "c"] []) |} in
  map detail_name (sec_entries sec) = ["b"; "a"; "c"].
Proof.
  intros sec.
  destruct (report_sections_stable (aged_env 7 1) default_report
              [("docs", ["b"; "a"; "c"])] sec)
    as (root & files & _ & _ & _).
  - left. reflexivity.
  - vm_compute. reflexivity.
Defined.

(** X18. The path printed for a candidate is [root/file], and the bare
    file name for a candidate of the top directory; a candidate in a
    subdirectory that is itself called "Root Directory" is printed by its
    bare name as well. *)
Theorem candidate_full_path
    (re : report_env) (report_filename : string)
    (walk : list (string * list string)) (c : candidate) :
  In c (candidates (walk_loop re report_filename walk)) ->
  exists root files file,
    In (root, files) walk /\ In file files /\ candidate_file c = file
    /\ ((root = "." \/ root = "Root Directory") /\ full_path c = file
        \/ (root <> "." /\ root <> "Root Directory"
            /\ full_path c = root +:+ "/" +:+ file)).
Proof.
  intros Hc. apply in_candidates in Hc as (root & files & file & Hw & Hf & _ & Hc).
  exists root, files, file. split; [exact Hw|]. split; [exact Hf|].
  unfold candidate_entry in Hc.
  destruct (getstat re root file) as [[size modified]|]; [|discriminate].
  destruct (is_candidate _ _ _); [|discriminate].
  injection Hc as <-. split; [reflexivity|].
  unfold full_path, candidate_path, candidate_file, display_path. cbn [fst snd].
  destruct (String.eqb_spec root ".") as [-> | Hdot].
  - left. split; [now left | reflexivity].
  - destruct (String.eqb_spec root "Root Directory") as [-> | Hroot].
    + left. split; [now right | reflexivity].
    + right. now repeat split.
Qed.

Lemma candidate_full_path_witness :
  exists c,
    In c (candidates (walk_loop (aged_env 7 200) default_report
                        [("Root Directory", ["x.txt"])]))
    /\ full_path c = "x.txt".
Proof.
  eexists. split; [left; reflexivity|].
  match goal with |- full_path ?c = _ =>
    destruct (candidate_full_path (aged_env 7 200) default_report
                [("Root Directory", ["x.txt"])] c)
      as (root & files & file & Hw & Hf & Hc & _)
  end.
  - left. reflexivity.
  - reflexivity.
Defined.
